(** * TelegramBotMCP: command handlers, Claude adapter and MCP facade

    A shallow embedding of
      - [src/petircode/handlers/commands.py]   (module [Commands]),
      - [src/petircode/services/claude_code.py] (module [ClaudeCode]),
      - [src/mcp_server.py]                     (module [McpServer]),
    over a small model of the Python values they manipulate (module [Py]),
    followed by the properties of the specification proved or refuted on
    that embedding. *)

From Stdlib Require Import ZArith NArith Lia.
From Stdlib Require String Ascii SpecFloat.
From stdpp Require Import base list numbers option.
Import String.StringSyntax.
Delimit Scope string_scope with string.

Local Open Scope N_scope.

(** ** Python values *)

Module Py.

(** A Python [str] is a sequence of Unicode code points; [len] counts code
    points, slices cut between code points. *)
Abbreviation char := N (only parsing).
Abbreviation str := (list N) (only parsing).

(** Literals are written as UTF-8 text and decoded once, when the constant
    is defined. *)
Fixpoint utf8_decode (bs : list N) : str :=
  match bs with
  | [] => []
  | b0 :: r0 =>
    if b0 <? 128 then b0 :: utf8_decode r0 else
    match r0 with
    | [] => []
    | b1 :: r1 =>
      if b0 <? 224 then ((b0 - 192) * 64 + (b1 - 128)) :: utf8_decode r1 else
      match r1 with
      | [] => []
      | b2 :: r2 =>
        if b0 <? 240
        then ((b0 - 224) * 4096 + (b1 - 128) * 64 + (b2 - 128)) :: utf8_decode r2
        else
        match r2 with
        | [] => []
        | b3 :: r3 =>
          ((b0 - 240) * 262144 + (b1 - 128) * 4096 + (b2 - 128) * 64 + (b3 - 128))
            :: utf8_decode r3
        end
      end
    end
  end.

Fixpoint bytes_of_string (s : String.string) : list N :=
  match s with
  | String.EmptyString => []
  | String.String a r => Ascii.N_of_ascii a :: bytes_of_string r
  end.

Definition lit (s : String.string) : str := utf8_decode (bytes_of_string s).
Arguments lit s%_string.

(** The newline character of the literals. *)
Definition nl : str := [10].

(** [len(s)] *)
Definition len {A} (l : list A) : nat := length l.

(** [s[i:j]] for [0 <= i <= j]: both ends saturate at [len(s)]. *)
Definition slice {A} (l : list A) (i j : nat) : list A := take (j - i) (drop i l).

(** [range(start, stop, step)] for a positive [step], as the iteration
    [i = start; while i < stop: yield i; i += step].  [fuel] bounds the
    number of iterations; [stop - start] always suffices. *)
Fixpoint range_from (fuel : nat) (i stop step : nat) : list nat :=
  match fuel with
  | O => []
  | S fuel' => if (i <? stop)%nat then i :: range_from fuel' (i + step) stop step else []
  end.

Definition range (start stop step : nat) : list nat :=
  range_from (stop - start) start stop step.

(** [enumerate(l)] *)
Definition enumerate {A} (l : list A) : list (nat * A) := imap (fun i x => (i, x)) l.

(** [sep.join(parts)] *)
Fixpoint join (sep : str) (parts : list str) : str :=
  match parts with
  | [] => []
  | [p] => p
  | p :: rest => p ++ sep ++ join sep rest
  end.

(** [str(n)] for an [int]. *)
Fixpoint uint_chars (d : Decimal.uint) : str :=
  match d with
  | Decimal.Nil => []
  | Decimal.D0 r => 48 :: uint_chars r
  | Decimal.D1 r => 49 :: uint_chars r
  | Decimal.D2 r => 50 :: uint_chars r
  | Decimal.D3 r => 51 :: uint_chars r
  | Decimal.D4 r => 52 :: uint_chars r
  | Decimal.D5 r => 53 :: uint_chars r
  | Decimal.D6 r => 54 :: uint_chars r
  | Decimal.D7 r => 55 :: uint_chars r
  | Decimal.D8 r => 56 :: uint_chars r
  | Decimal.D9 r => 57 :: uint_chars r
  end.

Definition str_of_nat (n : nat) : str := uint_chars (Nat.to_uint n).

Definition str_of_int (z : Z) : str :=
  match z with
  | Z0 => [48]
  | Zpos p => uint_chars (Pos.to_uint p)
  | Zneg p => 45 :: uint_chars (Pos.to_uint p)
  end.

(** [c.isspace()]: the code points Python treats as whitespace. *)
Definition isspace (c : char) : bool :=
  ((9 <=? c) && (c <=? 13)) || ((28 <=? c) && (c <=? 32))
  || (c =? 133) || (c =? 160) || (c =? 5760)
  || ((8192 <=? c) && (c <=? 8202))
  || (c =? 8232) || (c =? 8233) || (c =? 8239) || (c =? 8287) || (c =? 12288).

Fixpoint lstrip (s : str) : str :=
  match s with
  | [] => []
  | c :: r => if isspace c then lstrip r else s
  end.

Definition rstrip (s : str) : str := reverse (lstrip (reverse s)).

(** [s.strip()] *)
Definition strip (s : str) : str := rstrip (lstrip s).

(** Exceptions.  Only instances of [Exception] are modelled (an
    [except Exception] clause catches every one of them); each carries the
    class that the [except] clauses of the sources discriminate on and the
    text [str(e)]. *)
Inductive exn_class :=
  | NetworkError      (* telegram.error.NetworkError, not TimedOut *)
  | TimedOut          (* telegram.error.TimedOut, a NetworkError *)
  | TelegramError     (* any other telegram.error.TelegramError *)
  | ClientError       (* aiohttp.ClientError *)
  | ValueError
  | TypeError
  | AttributeError
  | UnboundLocalError
  | NameError
  | Exception.        (* any other Exception *)

Record exn := MkExn { exn_cls : exn_class; exn_str : str }.

(** [isinstance(e, (NetworkError, TimedOut))] *)
Definition is_network_error (e : exn) : bool :=
  match exn_cls e with NetworkError | TimedOut => true | _ => false end.

(** [isinstance(e, TelegramError)] *)
Definition is_telegram_error (e : exn) : bool :=
  match exn_cls e with NetworkError | TimedOut | TelegramError => true | _ => false end.

(** [isinstance(e, ValueError)] *)
Definition is_value_error (e : exn) : bool :=
  match exn_cls e with ValueError => true | _ => false end.

(** [isinstance(e, aiohttp.ClientError)] *)
Definition is_client_error (e : exn) : bool :=
  match exn_cls e with ClientError => true | _ => false end.

(** The outcome of evaluating an expression: a value or a raised exception. *)
Inductive result (A : Type) :=
  | Ret (a : A)
  | Raise (e : exn).
Arguments Ret {A} a.
Arguments Raise {A} e.

(** JSON-shaped Python values: what [response.json()] and the tool
    arguments are made of.  A [dict] keeps its items in insertion order;
    lookup takes the first item with the key. *)
#[warnings="-register-all"]
Inductive value :=
  | VNone
  | VBool (b : bool)
  | VInt (z : Z)
  | VFloat (f : SpecFloat.spec_float)
  | VStr (s : str)
  | VList (l : list value)
  | VDict (d : list (str * value)).

Abbreviation dict := (list (str * value)) (only parsing).

Definition str_eqb (a b : str) : bool := bool_decide (a = b).

Fixpoint dict_get (d : dict) (k : str) : option value :=
  match d with
  | [] => None
  | (k', v) :: r => if str_eqb k' k then Some v else dict_get r k
  end.

(** [d.get(k)] and [d.get(k, default)] *)
Definition get (d : dict) (k : str) : value := default VNone (dict_get d k).
Definition get_default (d : dict) (k : str) (dflt : value) : value :=
  default dflt (dict_get d k).

(** [k in d] *)
Definition contains (d : dict) (k : str) : bool :=
  match dict_get d k with Some _ => true | None => false end.

(** Truth value of an object, as tested by [if x] and [not x]. *)
Definition truthy (v : value) : bool :=
  match v with
  | VNone => false
  | VBool b => b
  | VInt z => negb (z =? 0)%Z
  | VFloat f => match f with SpecFloat.S754_zero _ => false | _ => true end
  | VStr s => match s with [] => false | _ => true end
  | VList l => match l with [] => false | _ => true end
  | VDict d => match d with [] => false | _ => true end
  end.

(** [type(v).__name__] *)
Definition s_NoneType : str := Eval vm_compute in lit "NoneType".
Definition s_bool : str := Eval vm_compute in lit "bool".
Definition s_int : str := Eval vm_compute in lit "int".
Definition s_float : str := Eval vm_compute in lit "float".
Definition s_str : str := Eval vm_compute in lit "str".
Definition s_list : str := Eval vm_compute in lit "list".
Definition s_dict : str := Eval vm_compute in lit "dict".

Definition type_name (v : value) : str :=
  match v with
  | VNone => s_NoneType
  | VBool _ => s_bool
  | VInt _ => s_int
  | VFloat _ => s_float
  | VStr _ => s_str
  | VList _ => s_list
  | VDict _ => s_dict
  end.

(** [v == "..."] against a string literal. *)
Definition eq_str (v : value) (s : str) : bool :=
  match v with VStr s' => str_eqb s' s | _ => false end.

(** [result] as an exception monad, for code that only computes. *)
#[global] Instance result_ret : MRet result := fun A a => Ret a.
#[global] Instance result_bind : MBind result := fun A B f m =>
  match m with
  | Ret a => f a
  | Raise e => Raise e
  end.

Definition s_quote : str := Eval vm_compute in lit "'".
Definition s_no_attribute : str := Eval vm_compute in lit "' object has no attribute '".
Definition s_object_of_type : str := Eval vm_compute in lit "object of type '".
Definition s_has_no_len : str := Eval vm_compute in lit "' has no len()".
Definition s_not_iterable : str := Eval vm_compute in lit "' object is not iterable".
Definition s_sequence_item : str := Eval vm_compute in lit "sequence item ".
Definition s_expected_str : str := Eval vm_compute in lit ": expected str instance, ".
Definition s_found : str := Eval vm_compute in lit " found".
Definition s_bad_operand : str := Eval vm_compute in lit "bad operand type for unary -: '".
Definition s_slice_indices : str := Eval vm_compute in
  lit "slice indices must be integers or None or have an __index__ method".
Definition s_get : str := Eval vm_compute in lit "get".

(** [v.attr] on an object without that attribute. *)
Definition no_attribute (v : value) (attr : str) : exn :=
  MkExn AttributeError (s_quote ++ type_name v ++ s_no_attribute ++ attr ++ s_quote).

(** [v.get(k, dflt)]: only a [dict] has [get]. *)
Definition value_get (v : value) (k : str) (dflt : value) : result value :=
  match v with
  | VDict d => Ret (get_default d k dflt)
  | _ => Raise (no_attribute v s_get)
  end.

(** [len(v)] *)
Definition value_len (v : value) : result nat :=
  match v with
  | VStr s => Ret (length s)
  | VList l => Ret (length l)
  | VDict d => Ret (length d)
  | _ => Raise (MkExn TypeError (s_object_of_type ++ type_name v ++ s_has_no_len))
  end.

(** [for x in v]: the items visited. *)
Definition value_iter (v : value) : result (list value) :=
  match v with
  | VList l => Ret l
  | VStr s => Ret (map (fun c => VStr [c]) s)
  | VDict d => Ret (map (fun kv => VStr (fst kv)) d)
  | _ => Raise (MkExn TypeError (s_quote ++ type_name v ++ s_not_iterable))
  end.

(** [sep.join(parts)] on a list of objects: every item must be a [str]. *)
Fixpoint join_values_from (i : nat) (parts : list value) : result (list str) :=
  match parts with
  | [] => Ret []
  | VStr s :: rest => r ← join_values_from (S i) rest; Ret (s :: r)
  | v :: _ =>
    Raise (MkExn TypeError
             (s_sequence_item ++ str_of_nat i ++ s_expected_str ++ type_name v ++ s_found))
  end.

Definition join_values (sep : str) (parts : list value) : result str :=
  strs ← join_values_from 0 parts; Ret (join sep strs).

(** [str(v)].  The text of a [float], a [list] or a [dict] is left to
    [repr_other]: it is fixed by the interpreter, not by these sources. *)
Definition s_None : str := Eval vm_compute in lit "None".
Definition s_True : str := Eval vm_compute in lit "True".
Definition s_False : str := Eval vm_compute in lit "False".

Definition str_of_value (repr_other : value -> str) (v : value) : str :=
  match v with
  | VNone => s_None
  | VBool true => s_True
  | VBool false => s_False
  | VInt z => str_of_int z
  | VStr s => s
  | _ => repr_other v
  end.

End Py.

(** ** Coroutines: state passing with exceptions *)

Module Eff.
Import Py.

Inductive level := INFO | WARNING | ERROR.

(** A computation over a state [S] that returns a value or raises. *)
Definition M (S A : Type) : Type := S -> result A * S.

#[global] Instance M_ret {S} : MRet (M S) := fun A a w => (Ret a, w).
#[global] Instance M_bind {S} : MBind (M S) := fun A B f m w =>
  match m w with
  | (Ret a, w') => f a w'
  | (Raise e, w') => (Raise e, w')
  end.

Definition raise {S A} (e : exn) : M S A := fun w => (Raise e, w).

(** The value or exception of a call that does not touch the state. *)
Definition lift {S A} (r : result A) : M S A := fun w => (r, w).

(** [try: body / except Exception as e: handler(e)] *)
Definition try_except {S A} (body : M S A) (handler : exn -> M S A) : M S A := fun w =>
  match body w with
  | (Ret a, w') => (Ret a, w')
  | (Raise e, w') => handler e w'
  end.

(** [try: x = first; rest(x) / except Exception as e: handler(e)], where the
    handler reads the local [x]: it is bound ([Some]) only once [first] has
    returned. *)
Definition try_let {S A B} (first : M S A) (rest : A -> M S B)
    (handler : option A -> exn -> M S B) : M S B := fun w =>
  match first w with
  | (Raise e, w1) => handler None e w1
  | (Ret a, w1) =>
    match rest a w1 with
    | (Ret b, w2) => (Ret b, w2)
    | (Raise e, w2) => handler (Some a) e w2
    end
  end.

(** [for x in l: body(x)] *)
Fixpoint for_each {S A} (l : list A) (body : A -> M S unit) : M S unit :=
  match l with
  | [] => mret tt
  | x :: r => body x;; for_each r body
  end.

End Eff.

(** ** [src/petircode/handlers/commands.py] *)

Module Commands.
Import Py Eff.

(** A [telegram.Message]; every [Message] object is truthy. *)
Record Message := MkMessage { message_id : Z }.

(** What the handler does to the outside world, in order: calls of the
    transport (with what the transport answered) and backoff waits. *)
Inductive event :=
  | EvReply (to : Message) (text : str) (r : result Message)      (* to.reply_text(text) *)
  | EvEdit (target : Message) (text : str) (r : result Message)   (* target.edit_text(text) *)
  | EvSleep (seconds : nat).                                      (* asyncio.sleep(seconds) *)

(** The transport is out of scope of the sources: [transport w k] is what
    the [k]-th call of [reply_text]/[edit_text] does (return a message or
    raise). *)
Record world := MkWorld {
  transport : nat -> result Message;
  calls : nat;
  trace : list event;
  logs : list (level * str)
}.

Definition init (tr : nat -> result Message) : world :=
  {| transport := tr; calls := 0; trace := []; logs := [] |}.

Abbreviation M := (Eff.M world).

Definition log (l : level) (msg : str) : M unit := fun w =>
  (Ret tt, {| transport := transport w; calls := calls w; trace := trace w;
              logs := logs w ++ [(l, msg)] |}).

Definition sleep (seconds : nat) : M unit := fun w =>
  (Ret tt, {| transport := transport w; calls := calls w;
              trace := trace w ++ [EvSleep seconds]; logs := logs w |}).

Definition reply_text (message : Message) (text : str) : M Message := fun w =>
  let r := transport w (calls w) in
  (r, {| transport := transport w; calls := S (calls w);
         trace := trace w ++ [EvReply message text r]; logs := logs w |}).

Definition edit_text (message : Message) (text : str) : M Message := fun w =>
  let r := transport w (calls w) in
  (r, {| transport := transport w; calls := S (calls w);
         trace := trace w ++ [EvEdit message text r]; logs := logs w |}).

(** *** [safe_reply] *)

Definition s_network_error_on_attempt : str :=
  Eval vm_compute in lit "Network error on attempt ".
Definition s_colon : str := Eval vm_compute in lit ": ".
Definition s_failed_to_send : str := Eval vm_compute in lit "Failed to send message after ".
Definition s_failed_to_edit : str := Eval vm_compute in lit "Failed to edit message after ".
Definition s_attempts : str := Eval vm_compute in lit " attempts".

Definition msg_network_error (attempt : nat) (e : exn) : str :=
  s_network_error_on_attempt ++ str_of_nat (attempt + 1) ++ s_colon ++ exn_str e.

Definition msg_failed_send (max_retries : nat) : str :=
  s_failed_to_send ++ str_of_nat max_retries ++ s_attempts.

Definition msg_failed_edit (max_retries : nat) : str :=
  s_failed_to_edit ++ str_of_nat max_retries ++ s_attempts.

(** The body of [for attempt in range(max_retries)], over the attempts that
    remain; falling off the end of the loop returns [None]. *)
Fixpoint safe_reply_loop (message : Message) (text : str) (max_retries : nat)
    (attempts : list nat) : M (option Message) :=
  match attempts with
  | [] => mret None
  | attempt :: rest =>
    try_except (m ← reply_text message text; mret (Some m))
      (fun e =>
         if is_network_error e then
           log WARNING (msg_network_error attempt e);;
           if (attempt <? max_retries - 1)%nat then
             sleep (2 ^ attempt);;
             safe_reply_loop message text max_retries rest
           else
             log ERROR (msg_failed_send max_retries);;
             raise e
         else raise e)
  end.

Definition safe_reply_n (message : Message) (text : str) (max_retries : nat)
    : M (option Message) :=
  safe_reply_loop message text max_retries (seq 0 max_retries).

(** [safe_reply(message, text)] with the default [max_retries=3]. *)
Definition safe_reply (message : Message) (text : str) : M (option Message) :=
  safe_reply_n message text 3.

(** *** [safe_edit] *)

Fixpoint safe_edit_loop (message : Message) (text : str) (max_retries : nat)
    (attempts : list nat) : M (option Message) :=
  match attempts with
  | [] => mret None
  | attempt :: rest =>
    try_except (m ← edit_text message text; mret (Some m))
      (fun e =>
         if is_network_error e then
           log WARNING (msg_network_error attempt e);;
           if (attempt <? max_retries - 1)%nat then
             sleep (2 ^ attempt);;
             safe_edit_loop message text max_retries rest
           else
             log ERROR (msg_failed_edit max_retries);;
             mret None
         else raise e)
  end.

Definition safe_edit_n (message : Message) (text : str) (max_retries : nat)
    : M (option Message) :=
  safe_edit_loop message text max_retries (seq 0 max_retries).

Definition safe_edit (message : Message) (text : str) : M (option Message) :=
  safe_edit_n message text 3.

(** *** The handlers' inputs and collaborators *)

Record Update := MkUpdate { message : Message }.
Record Context := MkContext { args : list str }.

(** The terminal payload of the code-execution stream. *)
Record exec_result := MkExecResult {
  stdout : str;
  stderr : str;
  return_code : Z;
  success : bool
}.

(** The dicts yielded by [execute_claude_code_with_status], by their
    ['type']: ['message'] for status and progress, ['data'] for result. *)
Inductive status_update :=
  | SUStatus (msg : str)
  | SUProgress (msg : str)
  | SUResult (data : exec_result)
  | SUOther.

(** The services the handlers import.  [fetch_url_content] and
    [query_deepseek] return a text or raise.
    [execute_claude_code_with_status] is imported from
    [services.claude_code] but is not among the definitions of that module
    given here; an asynchronous generator is taken as the updates it yields
    and the exception, if any, that ends the iteration. *)
Record services := MkServices {
  fetch_url_content : str -> result str;
  query_deepseek : str -> result str;
  execute_claude_code_with_status : str -> list status_update * option exn
}.

(** [[s[i:i+n] for i in range(0, len(s), n)]] *)
Definition chunks_of (s : str) (n : nat) : list str :=
  map (fun i => slice s i (i + n)) (range 0 (len s) n).

(** [if status_msg:] in an [except] clause: reading the local before the
    assignment in the [try] body has run raises [UnboundLocalError]. *)
Definition s_unbound_status_msg : str := Eval vm_compute in
  lit "cannot access local variable 'status_msg' where it is not associated with a value".

Definition if_status_msg (status_msg : option (option Message))
    (body : Message -> M unit) : M unit :=
  match status_msg with
  | None => raise (MkExn UnboundLocalError s_unbound_status_msg)
  | Some None => mret tt
  | Some (Some m) => body m
  end.

(** *** [fetch_command] *)

Definition s_fetch_usage_1 : str := Eval vm_compute in lit "Please provide a URL.".
Definition s_fetch_usage_2 : str := Eval vm_compute in lit "Usage: /fetch <url>".
Definition s_fetching : str := Eval vm_compute in lit "Fetching content from: ".
Definition s_please_wait : str := Eval vm_compute in lit "Please wait...".
Definition s_truncated : str := Eval vm_compute in lit "... (truncated)".
Definition s_content : str := Eval vm_compute in lit "Content:".
Definition s_error_fetching : str := Eval vm_compute in lit "Error fetching URL: ".

Definition fetch_usage : str := s_fetch_usage_1 ++ nl ++ s_fetch_usage_2.

Definition fetch_truncate (content : str) : str :=
  if (4000 <? len content)%nat
  then slice content 0 4000 ++ nl ++ nl ++ s_truncated
  else content.

Definition fetch_command (svc : services) (update : Update) (context : Context)
    : M unit :=
  match args context with
  | [] =>
    reply_text (message update) fetch_usage;;
    mret tt
  | url :: _ =>
    reply_text (message update) (s_fetching ++ url ++ nl ++ nl ++ s_please_wait);;
    try_except
      (content ← lift (fetch_url_content svc url);
       let content := fetch_truncate content in
       reply_text (message update) (s_content ++ nl ++ nl ++ content);;
       mret tt)
      (fun e =>
         log ERROR (s_error_fetching ++ exn_str e);;
         reply_text (message update) (s_error_fetching ++ exn_str e);;
         mret tt)
  end.

(** *** [deepseek_command] *)

Definition s_ds_usage_1 : str := Eval vm_compute in lit "请提供问题。".
Definition s_ds_usage_2 : str := Eval vm_compute in lit "用法: /deepseek <你的问题>".
Definition s_ds_thinking : str := Eval vm_compute in lit "🤔 DeepSeek正在思考...".
Definition s_ds_processing : str := Eval vm_compute in lit "🤔 DeepSeek正在处理您的问题...".
Definition s_ds_done : str := Eval vm_compute in lit "✅ DeepSeek已完成回答".
Definition s_ds_part_1 : str := Eval vm_compute in lit "📝 回答 (第".
Definition s_ds_part_2 : str := Eval vm_compute in lit "部分):".
Definition s_ds_answer : str := Eval vm_compute in lit "📝 回答:".
Definition s_ds_unconfigured : str := Eval vm_compute in lit "⚠️ DeepSeek API未配置".
Definition s_ds_unconfigured_long : str := Eval vm_compute in
  lit "⚠️ DeepSeek API未配置。请在.env文件中设置DEEPSEEK_API_KEY。".
Definition s_ds_log : str := Eval vm_compute in lit "Error querying DeepSeek: ".
Definition s_ds_failed : str := Eval vm_compute in lit "❌ DeepSeek执行失败".
Definition s_error : str := Eval vm_compute in lit "❌ 错误: ".
Definition s_retry_later : str := Eval vm_compute in lit "请稍后重试。".

Definition deepseek_usage : str := s_ds_usage_1 ++ nl ++ s_ds_usage_2.

Definition deepseek_chunk_reply (i : nat) (chunk : str) : str :=
  s_ds_part_1 ++ str_of_nat (i + 1) ++ s_ds_part_2 ++ nl ++ nl ++ chunk.

Definition deepseek_reply (response : str) : str :=
  s_ds_answer ++ nl ++ nl ++ response.

Definition deepseek_except (update : Update)
    (status_msg : option (option Message)) (e : exn) : M unit :=
  if is_value_error e then
    if_status_msg status_msg (fun m => safe_edit m s_ds_unconfigured;; mret tt);;
    safe_reply (message update) s_ds_unconfigured_long;;
    mret tt
  else
    log ERROR (s_ds_log ++ exn_str e);;
    if_status_msg status_msg (fun m => safe_edit m s_ds_failed;; mret tt);;
    safe_reply (message update) (s_error ++ exn_str e ++ nl ++ nl ++ s_retry_later);;
    mret tt.

Definition deepseek_command (svc : services) (update : Update) (context : Context)
    : M unit :=
  match args context with
  | [] =>
    safe_reply (message update) deepseek_usage;;
    mret tt
  | _ =>
    let question := join [32] (args context) in
    try_let (safe_reply (message update) s_ds_thinking)
      (fun status_msg =>
         match status_msg with
         | None => mret tt
         | Some status_msg =>
           safe_edit status_msg s_ds_processing;;
           response ← lift (query_deepseek svc question);
           safe_edit status_msg s_ds_done;;
           if (4000 <? len response)%nat then
             let chunks := chunks_of response 4000 in
             for_each (enumerate chunks) (fun '(i, chunk) =>
               safe_reply (message update) (deepseek_chunk_reply i chunk);;
               mret tt)
           else
             safe_reply (message update) (deepseek_reply response);;
             mret tt
         end)
      (deepseek_except update)
  end.

(** *** [claude_command] *)

Definition s_cl_usage_1 : str := Eval vm_compute in lit "请提供操作描述。".
Definition s_cl_usage_2 : str := Eval vm_compute in lit "用法: /claude <操作描述>".
Definition s_cl_usage_3 : str := Eval vm_compute in lit "示例:".
Definition s_cl_usage_4 : str := Eval vm_compute in lit "• /claude 列出当前目录的文件".
Definition s_cl_usage_5 : str := Eval vm_compute in lit "• /claude 创建一个名为test.txt的文件".
Definition s_cl_usage_6 : str := Eval vm_compute in
  lit "• /claude 帮我写一个Python脚本计算斐波那契数列".
Definition s_cl_starting : str := Eval vm_compute in lit "💻 Claude Code正在启动...".
Definition s_cl_status : str := Eval vm_compute in lit "💻 ".
Definition s_cl_progress : str := Eval vm_compute in lit "⚙️ ".
Definition s_cl_done : str := Eval vm_compute in lit "✅ Claude Code执行完成".
Definition s_cl_no_output : str := Eval vm_compute in lit "执行成功，无输出内容。".
Definition s_cl_part_1 : str := Eval vm_compute in lit "📄 输出 (第".
Definition s_cl_part_2 : str := Eval vm_compute in lit "/".
Definition s_cl_part_3 : str := Eval vm_compute in lit "部分):".
Definition s_cl_output : str := Eval vm_compute in lit "📄 输出:".
Definition s_cl_failed : str := Eval vm_compute in lit "❌ Claude Code执行失败".
Definition s_cl_cut : str := Eval vm_compute in lit "... (已截断)".
Definition s_cl_exit_1 : str := Eval vm_compute in lit "❌ 执行失败 (退出码: ".
Definition s_cl_exit_2 : str := Eval vm_compute in lit ")".
Definition s_cl_log : str := Eval vm_compute in lit "Error executing Claude Code: ".
Definition s_cl_error : str := Eval vm_compute in lit "❌ Claude Code执行出错".

Definition claude_usage : str :=
  s_cl_usage_1 ++ nl ++ s_cl_usage_2 ++ nl ++ nl ++ s_cl_usage_3 ++ nl
    ++ s_cl_usage_4 ++ nl ++ s_cl_usage_5 ++ nl ++ s_cl_usage_6.

Definition claude_chunk_reply (total i : nat) (chunk : str) : str :=
  s_cl_part_1 ++ str_of_nat (i + 1) ++ s_cl_part_2 ++ str_of_nat total
    ++ s_cl_part_3 ++ nl ++ nl ++ chunk.

Definition claude_reply (output : str) : str := s_cl_output ++ nl ++ nl ++ output.

(** [output = result['stdout'].strip()], replaced when empty. *)
Definition claude_output (result : exec_result) : str :=
  match strip (stdout result) with
  | [] => s_cl_no_output
  | output => output
  end.

(** [result['stderr'].strip() or result['stdout'].strip()], cut at 3800. *)
Definition claude_error_msg (result : exec_result) : str :=
  let error_msg :=
    match strip (stderr result) with
    | [] => strip (stdout result)
    | err => err
    end in
  if (3800 <? len error_msg)%nat
  then slice error_msg 0 3800 ++ nl ++ nl ++ s_cl_cut
  else error_msg.

(** The body of [async for status_update in ...]. *)
Definition claude_on_update (update : Update) (status_msg : Message)
    (status_update : status_update) : M unit :=
  match status_update with
  | SUStatus msg => safe_edit status_msg (s_cl_status ++ msg);; mret tt
  | SUProgress msg => safe_edit status_msg (s_cl_progress ++ msg);; mret tt
  | SUResult result =>
    if success result then
      safe_edit status_msg s_cl_done;;
      let output := claude_output result in
      if (3800 <? len output)%nat then
        let chunks := chunks_of output 3800 in
        for_each (enumerate chunks) (fun '(i, chunk) =>
          safe_reply (message update) (claude_chunk_reply (len chunks) i chunk);;
          mret tt)
      else
        safe_reply (message update) (claude_reply output);;
        mret tt
    else
      safe_edit status_msg s_cl_failed;;
      let error_msg := claude_error_msg result in
      safe_reply (message update)
        (s_cl_exit_1 ++ str_of_int (return_code result) ++ s_cl_exit_2
           ++ nl ++ nl ++ error_msg);;
      mret tt
  | SUOther => mret tt
  end.

Definition claude_except (update : Update)
    (status_msg : option (option Message)) (e : exn) : M unit :=
  log ERROR (s_cl_log ++ exn_str e);;
  if_status_msg status_msg (fun m => safe_edit m s_cl_error;; mret tt);;
  safe_reply (message update) (s_error ++ exn_str e);;
  mret tt.

Definition claude_command (svc : services) (update : Update) (context : Context)
    : M unit :=
  match args context with
  | [] =>
    safe_reply (message update) claude_usage;;
    mret tt
  | _ =>
    let operation := join [32] (args context) in
    try_let (safe_reply (message update) s_cl_starting)
      (fun status_msg =>
         match status_msg with
         | None => mret tt
         | Some status_msg =>
           let '(updates, failure) := execute_claude_code_with_status svc operation in
           for_each updates (claude_on_update update status_msg);;
           match failure with
           | Some e => raise e
           | None => mret tt
           end
         end)
      (claude_except update)
  end.

(** *** Observations on a trace *)

(** The texts of the replies the transport accepted, in order. *)
Definition sent_replies (tr : list event) : list str :=
  omap (fun ev => match ev with EvReply _ text (Ret _) => Some text | _ => None end) tr.

(** The edits the transport accepted, in order. *)
Definition applied_edits (tr : list event) : list (Message * str) :=
  omap (fun ev => match ev with EvEdit m text (Ret _) => Some (m, text) | _ => None end) tr.

(** The backoff waits, in order. *)
Definition sleeps (tr : list event) : list nat :=
  omap (fun ev => match ev with EvSleep n => Some n | _ => None end) tr.

(** The number of calls of the transport. *)
Definition attempts (tr : list event) : nat :=
  length (omap (fun ev => match ev with EvSleep _ => None | _ => Some ev end) tr).

End Commands.

(** ** [src/petircode/services/claude_code.py] *)

Module ClaudeCode.
Import Py Eff.

(** The attributes of [config] that the module reads. *)
Record Config := MkConfig {
  CLAUDE_TIMEOUT : Z;
  CLAUDE_API_KEY : option str;
  CLAUDE_WORK_DIR : str;
  CLAUDE_MODEL : str;
  CLAUDE_API_URL : str
}.

(** What [session.post] is given, and the response it enters with:
    [status], the body as [await response.text()] and as
    [await response.json()], which may raise. *)
Record Request := MkRequest {
  req_timeout : Z;
  req_url : str;
  req_headers : list (str * str);
  req_json : value
}.

Record Response := MkResponse {
  status : Z;
  text : str;
  json : result (list (str * value))
}.

(** The outside of the module: the HTTP endpoint ([Raise] when the request
    itself fails) and the interpreter's [str] of compound values. *)
Record Env := MkEnv {
  post : Request -> result Response;
  repr_other : value -> str
}.

(** The returned dict, by its keys. *)
Record Result := MkResult {
  stdout : str;
  stderr : str;
  return_code : Z;
  success : bool
}.

(** The module only writes to its logger. *)
Abbreviation M := (Eff.M (list (level * str))).

Definition log (l : level) (msg : str) : M unit := fun w => (Ret tt, w ++ [(l, msg)]).

Definition s_content : str := Eval vm_compute in lit "content".
Definition s_type : str := Eval vm_compute in lit "type".
Definition s_text : str := Eval vm_compute in lit "text".
Definition s_tool_use : str := Eval vm_compute in lit "tool_use".
Definition s_operation_completed : str := Eval vm_compute in lit "Operation completed".
Definition s_no_response_content : str := Eval vm_compute in lit "No response content".
Definition s_error_extracting : str := Eval vm_compute in lit "Error extracting result: ".
Definition s_error_parsing : str := Eval vm_compute in lit "Error parsing response: ".

(** The loop [for content_block in data["content"]], threading
    [result_parts]. *)
Fixpoint collect_parts (env : Env) (blocks : list value) (result_parts : list value)
    : result (list value) :=
  match blocks with
  | [] => Ret result_parts
  | content_block :: rest =>
    ty ← value_get content_block s_type VNone;
    if eq_str ty s_text then
      t ← value_get content_block s_text (VStr []);
      collect_parts env rest (result_parts ++ [t])
    else
      ty' ← value_get content_block s_type VNone;
      if eq_str ty' s_tool_use then
        tool_result ← value_get content_block s_content (VStr []);
        if truthy tool_result
        then collect_parts env rest
               (result_parts ++ [VStr (str_of_value (repr_other env) tool_result)])
        else collect_parts env rest result_parts
      else collect_parts env rest result_parts
  end.

(** The [try] body of [_extract_result_from_response]. *)
Definition extract_body (env : Env) (data : list (str * value)) : result str :=
  if contains data s_content then
    n ← value_len (get data s_content);
    if (0 <? n)%nat then
      blocks ← value_iter (get data s_content);
      result_parts ← collect_parts env blocks [];
      match result_parts with
      | [] => Ret s_operation_completed
      | _ => join_values nl result_parts
      end
    else Ret s_no_response_content
  else Ret s_no_response_content.

Definition _extract_result_from_response (env : Env) (data : list (str * value)) : M str :=
  try_except (lift (extract_body env data))
    (fun e =>
       log ERROR (s_error_extracting ++ exn_str e);;
       mret (s_error_parsing ++ exn_str e)).

Definition s_not_configured : str := Eval vm_compute in lit "CLAUDE_API_KEY is not configured".
Definition s_executing : str := Eval vm_compute in lit "Executing operation via Claude API: ".
Definition s_working_directory : str := Eval vm_compute in lit "Working directory: ".
Definition s_x_api_key : str := Eval vm_compute in lit "x-api-key".
Definition s_anthropic_version : str := Eval vm_compute in lit "anthropic-version".
Definition s_2023_06_01 : str := Eval vm_compute in lit "2023-06-01".
Definition s_content_type : str := Eval vm_compute in lit "content-type".
Definition s_application_json : str := Eval vm_compute in lit "application/json".
Definition s_model : str := Eval vm_compute in lit "model".
Definition s_max_tokens : str := Eval vm_compute in lit "max_tokens".
Definition s_messages : str := Eval vm_compute in lit "messages".
Definition s_role : str := Eval vm_compute in lit "role".
Definition s_user : str := Eval vm_compute in lit "user".
Definition s_please_execute : str := Eval vm_compute in
  lit "Please execute this operation in the directory ".
Definition s_colon : str := Eval vm_compute in lit ": ".
Definition s_tools : str := Eval vm_compute in lit "tools".
Definition s_computer_20241022 : str := Eval vm_compute in lit "computer_20241022".
Definition s_name : str := Eval vm_compute in lit "name".
Definition s_computer : str := Eval vm_compute in lit "computer".
Definition s_display_width_px : str := Eval vm_compute in lit "display_width_px".
Definition s_display_height_px : str := Eval vm_compute in lit "display_height_px".
Definition s_display_number : str := Eval vm_compute in lit "display_number".
Definition s_bash_20241022 : str := Eval vm_compute in lit "bash_20241022".
Definition s_bash : str := Eval vm_compute in lit "bash".
Definition s_claude_api_error : str := Eval vm_compute in lit "Claude API error: ".
Definition s_dash : str := Eval vm_compute in lit " - ".
Definition s_api_returned_status : str := Eval vm_compute in lit "API returned status ".
Definition s_api_response_received : str := Eval vm_compute in lit "API response received".
Definition s_network_error_calling : str := Eval vm_compute in
  lit "Network error calling Claude API: ".
Definition s_network_error : str := Eval vm_compute in lit "Network error: ".
Definition s_error_executing : str := Eval vm_compute in lit "Error executing via Claude API: ".

(** [if not config.CLAUDE_API_KEY]: unset or empty. *)
Definition api_key_of (cfg : Config) : option str :=
  match CLAUDE_API_KEY cfg with
  | Some (c :: k) => Some (c :: k)
  | _ => None
  end.

Definition headers (api_key : str) : list (str * str) :=
  [(s_x_api_key, api_key);
   (s_anthropic_version, s_2023_06_01);
   (s_content_type, s_application_json)].

Definition payload (cfg : Config) (operation : str) : value :=
  VDict
    [(s_model, VStr (CLAUDE_MODEL cfg));
     (s_max_tokens, VInt 4096);
     (s_messages,
      VList [VDict [(s_role, VStr s_user);
                    (s_content,
                     VStr (s_please_execute ++ CLAUDE_WORK_DIR cfg ++ s_colon ++ operation))]]);
     (s_tools,
      VList [VDict [(s_type, VStr s_computer_20241022);
                    (s_name, VStr s_computer);
                    (s_display_width_px, VInt 1024);
                    (s_display_height_px, VInt 768);
                    (s_display_number, VInt 1)];
             VDict [(s_type, VStr s_bash_20241022);
                    (s_name, VStr s_bash)]])].

(** The message of the exception raised on a status other than 200. *)
Definition api_status_message (status : Z) (error_text : str) : str :=
  s_api_returned_status ++ str_of_int status ++ s_colon ++ error_text.

Definition execute_claude_code (cfg : Config) (env : Env) (operation : str)
    (timeout : option Z) : M Result :=
  let timeout := match timeout with None => CLAUDE_TIMEOUT cfg | Some t => t end in
  match api_key_of cfg with
  | None => raise (MkExn ValueError s_not_configured)
  | Some api_key =>
    log INFO (s_executing ++ operation);;
    log INFO (s_working_directory ++ CLAUDE_WORK_DIR cfg);;
    let headers := headers api_key in
    let payload := payload cfg operation in
    try_except
      (response ← lift (post env (MkRequest timeout (CLAUDE_API_URL cfg) headers payload));
       if negb (status response =? 200)%Z then
         let error_text := text response in
         log ERROR (s_claude_api_error ++ str_of_int (status response) ++ s_dash ++ error_text);;
         raise (MkExn Exception (api_status_message (status response) error_text))
       else
         data ← lift (json response);
         log INFO s_api_response_received;;
         result_text ← _extract_result_from_response env data;
         mret {| stdout := result_text; stderr := []; return_code := 0; success := true |})
      (fun e =>
         if is_client_error e then
           log ERROR (s_network_error_calling ++ exn_str e);;
           raise (MkExn Exception (s_network_error ++ exn_str e))
         else
           log ERROR (s_error_executing ++ exn_str e);;
           raise e)
  end.

End ClaudeCode.

(** ** [src/mcp_server.py] *)

Module McpServer.
Import Py Eff.

(** [mcp.types.TextContent] *)
Record TextContent := MkTextContent { type : str; text : str }.

(** [telegram.Bot] *)
Record Bot := MkBot { token : str }.

(** What [Bot.send_message] returns. *)
Record SentMessage := MkSentMessage { chat_id : Z; message_id : Z }.

(** The parts of [telegram.Update] that [get_updates] reads; [date] is the
    text of the [datetime]. *)
Record User := MkUser { first_name : str; username : option str }.
Record Message := MkMessage {
  from_user : option User;
  msg_chat_id : Z;
  msg_text : option str;
  date : str
}.
Record Update := MkUpdate { message : option Message }.

(** The process and the Bot API, which are outside the sources: the
    environment variable, what the two API calls do for given arguments,
    and whether the name [get_updates] is bound when a tool is called.  The
    file defines [get_updates] below its first
    [if __name__ == "__main__": asyncio.run(main())]: run as a script, the
    server of that first [main()] answers calls before the definition is
    reached; imported as a module, the name is bound. *)
Record Env := MkEnv {
  TELEGRAM_BOT_TOKEN : option str;
  api_send_message : Bot -> value -> value -> result SentMessage;
  api_get_updates : Bot -> value -> result (list Update);
  get_updates_bound : bool
}.

(** The module's state: the global [bot] and the logger's output. *)
Record world := MkWorld {
  bot : option Bot;
  logs : list (level * str)
}.

Abbreviation M := (Eff.M world).

Definition log (l : level) (msg : str) : M unit := fun w =>
  (Ret tt, {| bot := bot w; logs := logs w ++ [(l, msg)] |}).

Definition s_token_required : str := Eval vm_compute in
  lit "TELEGRAM_BOT_TOKEN environment variable is required".
Definition s_text : str := Eval vm_compute in lit "text".
Definition s_send_telegram_message : str := Eval vm_compute in lit "send_telegram_message".
Definition s_get_telegram_updates : str := Eval vm_compute in lit "get_telegram_updates".
Definition s_unknown_tool : str := Eval vm_compute in lit "Unknown tool: ".
Definition s_error_calling_tool : str := Eval vm_compute in lit "Error calling tool ".
Definition s_colon : str := Eval vm_compute in lit ": ".
Definition s_error : str := Eval vm_compute in lit "Error: ".
Definition s_chat_id : str := Eval vm_compute in lit "chat_id".
Definition s_required : str := Eval vm_compute in lit "Error: chat_id and text are required".
Definition s_sent : str := Eval vm_compute in lit "Message sent successfully!".
Definition s_chat_id_label : str := Eval vm_compute in lit "Chat ID: ".
Definition s_message_id_label : str := Eval vm_compute in lit "Message ID: ".
Definition s_telegram_error : str := Eval vm_compute in lit "Telegram error: ".
Definition s_limit : str := Eval vm_compute in lit "limit".
Definition s_no_recent : str := Eval vm_compute in lit "No recent messages".
Definition s_recent : str := Eval vm_compute in lit "Recent messages:".
Definition s_from : str := Eval vm_compute in lit "From: ".
Definition s_at : str := Eval vm_compute in lit " (@".
Definition s_close : str := Eval vm_compute in lit ")".
Definition s_text_label : str := Eval vm_compute in lit "Text: ".
Definition s_date_label : str := Eval vm_compute in lit "Date: ".
Definition s_first_name : str := Eval vm_compute in lit "first_name".
Definition s_get_updates_undefined : str := Eval vm_compute in
  lit "name 'get_updates' is not defined".

Definition text_content (t : str) : TextContent := {| type := s_text; text := t |}.

(** [get_bot]: the global is created on first use. *)
Definition get_bot (env : Env) : M Bot := fun w =>
  match bot w with
  | Some b => (Ret b, w)
  | None =>
    match TELEGRAM_BOT_TOKEN env with
    | Some (c :: t) =>
      let b := MkBot (c :: t) in
      (Ret b, {| bot := Some b; logs := logs w |})
    | _ => (Raise (MkExn ValueError s_token_required), w)
    end
  end.

(** [except TelegramError as e: return [TextContent(..., f"Telegram error: ...")]] *)
Definition except_telegram_error (body : M (list TextContent)) : M (list TextContent) :=
  try_except body
    (fun e =>
       if is_telegram_error e
       then mret [text_content (s_telegram_error ++ exn_str e)]
       else raise e).

Definition send_message (env : Env) (arguments : value) : M (list TextContent) :=
  chat_id ← lift (value_get arguments s_chat_id VNone);
  text ← lift (value_get arguments s_text VNone);
  if negb (truthy chat_id) || negb (truthy text) then
    mret [text_content s_required]
  else
    except_telegram_error
      (telegram_bot ← get_bot env;
       message ← lift (api_send_message env telegram_bot chat_id text);
       let result :=
         s_sent ++ nl ++ s_chat_id_label ++ str_of_int (McpServer.chat_id message)
           ++ nl ++ s_message_id_label ++ str_of_int (message_id message) in
       mret [text_content result]).

(** [-limit] *)
Definition neg (v : value) : result value :=
  match v with
  | VInt z => Ret (VInt (- z))
  | VBool b => Ret (VInt (- (if b then 1 else 0)))
  | VFloat f => Ret (VFloat (SpecFloat.SFopp f))
  | _ => Raise (MkExn TypeError (s_bad_operand ++ type_name v ++ s_quote))
  end.

(** [l[start:]]: a negative [start] counts from the end; a start that is
    not an integer is refused. *)
Definition slice_from {A} (l : list A) (start : value) : result (list A) :=
  let from (z : Z) : list A :=
    if (z <? 0)%Z then drop (length l - Z.to_nat (- z)) l else drop (Z.to_nat z) l in
  match start with
  | VInt z => Ret (from z)
  | VBool b => Ret (from (if b then 1 else 0)%Z)
  | VNone => Ret l
  | _ => Raise (MkExn TypeError s_slice_indices)
  end.

(** [f"{x}"] for an optional [str]. *)
Definition str_of_optional (o : option str) : str := default s_None o.

(** One turn of [for update in updates[-limit:]], threading [result]. *)
Definition render_update (result : str) (update : Update) : Py.result str :=
  match message update with
  | None => Ret result
  | Some msg =>
    match from_user msg with
    | None => Raise (no_attribute VNone s_first_name)
    | Some u =>
      let result := result ++ s_from ++ first_name u ++ s_at
                      ++ str_of_optional (username u) ++ s_close ++ nl in
      let result := result ++ s_chat_id_label ++ str_of_int (msg_chat_id msg) ++ nl in
      let result := result ++ s_text_label ++ str_of_optional (msg_text msg) ++ nl in
      let result := result ++ s_date_label ++ date msg ++ nl ++ nl in
      Ret result
    end
  end.

Fixpoint render_updates (result : str) (updates : list Update) : Py.result str :=
  match updates with
  | [] => Ret result
  | update :: rest => result ← render_update result update; render_updates result rest
  end.

Definition get_updates (env : Env) (arguments : value) : M (list TextContent) :=
  limit ← lift (value_get arguments s_limit (VInt 10));
  except_telegram_error
    (telegram_bot ← get_bot env;
     updates ← lift (api_get_updates env telegram_bot limit);
     match updates with
     | [] => mret [text_content s_no_recent]
     | _ =>
       let result := s_recent ++ nl ++ nl in
       start ← lift (neg limit);
       shown ← lift (slice_from updates start);
       result ← lift (render_updates result shown);
       mret [text_content result]
     end).

(** The [try] body of [call_tool]. *)
Definition dispatch (env : Env) (name : str) (arguments : value) : M (list TextContent) :=
  if str_eqb name s_send_telegram_message then send_message env arguments
  else if str_eqb name s_get_telegram_updates then
    if get_updates_bound env then get_updates env arguments
    else raise (MkExn NameError s_get_updates_undefined)
  else raise (MkExn ValueError (s_unknown_tool ++ name)).

Definition call_tool (env : Env) (name : str) (arguments : value) : M (list TextContent) :=
  try_except (dispatch env name arguments)
    (fun e =>
       log ERROR (s_error_calling_tool ++ name ++ s_colon ++ exn_str e);;
       mret [text_content (s_error ++ exn_str e)]).

(** *** [list_tools] *)

(** [mcp.types.Tool] *)
Record Tool := MkTool { name : str; description : str; inputSchema : value }.

Definition s_type : str := Eval vm_compute in lit "type".
Definition s_object : str := Eval vm_compute in lit "object".
Definition s_properties : str := Eval vm_compute in lit "properties".
Definition s_string : str := Eval vm_compute in lit "string".
Definition s_number : str := Eval vm_compute in lit "number".
Definition s_description : str := Eval vm_compute in lit "description".
Definition s_required_key : str := Eval vm_compute in lit "required".
Definition s_default : str := Eval vm_compute in lit "default".
Definition s_send_description : str := Eval vm_compute in
  lit "Send a message to a Telegram chat".
Definition s_chat_id_description : str := Eval vm_compute in
  lit "Telegram chat ID or username (e.g., '@myautomaticagentbot')".
Definition s_text_description : str := Eval vm_compute in lit "Message text to send".
Definition s_updates_description : str := Eval vm_compute in
  lit "Get recent messages from Telegram bot".
Definition s_limit_description : str := Eval vm_compute in
  lit "Number of updates to retrieve (default: 10)".

Definition list_tools : list Tool :=
  [ {| name := s_send_telegram_message;
       description := s_send_description;
       inputSchema :=
         VDict
           [(s_type, VStr s_object);
            (s_properties,
             VDict
               [(s_chat_id,
                 VDict [(s_type, VStr s_string);
                        (s_description, VStr s_chat_id_description)]);
                (s_text,
                 VDict [(s_type, VStr s_string);
                        (s_description, VStr s_text_description)])]);
            (s_required_key, VList [VStr s_chat_id; VStr s_text])] |};
    {| name := s_get_telegram_updates;
       description := s_updates_description;
       inputSchema :=
         VDict
           [(s_type, VStr s_object);
            (s_properties,
             VDict
               [(s_limit,
                 VDict [(s_type, VStr s_number);
                        (s_description, VStr s_limit_description);
                        (s_default, VInt 10)])])] |} ].

End McpServer.

(** * Properties *)

(** ** Vocabulary *)

Local Close Scope N_scope.

Module Props.
Import Py Eff.

(** [ceil(a / b)] *)
Definition ceil_div (a b : nat) : nat := (a + b - 1) / b.

(** The body of a labelled reply: what follows the label. *)
Definition strip_label (label reply : list N) : list N := drop (length label) reply.

(** [replies] deliver [output] under [threshold]: one reply with the whole
    text up to the threshold; above it [ceil(len/threshold)] replies, each
    made of its label and a body, whose bodies put end to end give back
    [output]. *)
Definition delivers (threshold : nat) (single_label : list N)
    (chunk_label : nat -> list N) (output : list N) (replies : list (list N)) : Prop :=
  if decide (length output <= threshold)
  then replies = [single_label ++ output]
  else length replies = ceil_div (length output) threshold
       /\ (forall i r, replies !! i = Some r -> take (length (chunk_label i)) r = chunk_label i)
       /\ concat (imap (fun i r => strip_label (chunk_label i) r) replies) = output.

(** [replies] are the consecutive pieces of [output] of size [threshold],
    in order, one reply per piece, each under its label; or one reply with
    the whole text up to the threshold. *)
Definition chunked (threshold : nat) (single_label : list N)
    (chunk_label : nat -> list N) (output : list N) (replies : list (list N)) : Prop :=
  if decide (length output <= threshold)
  then replies = [single_label ++ output]
  else length replies = ceil_div (length output) threshold
       /\ forall i, i < length replies ->
            replies !! i
            = Some (chunk_label i ++ take threshold (drop (i * threshold) output)).

End Props.

Module CommandsProps.
Import Py Eff Commands.

(** The transport accepted the call. *)
Definition delivered (r : result Message) : bool :=
  match r with Ret _ => true | Raise _ => false end.

(** The call failed with [NetworkError] or [TimedOut]. *)
Definition transient (r : result Message) : bool :=
  match r with Ret _ => false | Raise e => is_network_error e end.

(** From call [k] on, the transport accepts a call within three attempts,
    failing only transiently before. *)
Definition responsive_at (tr : nat -> result Message) (k : nat) : bool :=
  delivered (tr k)
  || (transient (tr k)
      && (delivered (tr (S k))
          || (transient (tr (S k)) && delivered (tr (S (S k)))))).

Definition responsive (tr : nat -> result Message) : Prop :=
  forall k, responsive_at tr k = true.

(** The transport accepts every call. *)
Definition reliable (tr : nat -> result Message) : Prop :=
  forall k, delivered (tr k) = true.

(** The labels of the replies. *)
Definition deepseek_single_label : list N := s_ds_answer ++ nl ++ nl.
Definition deepseek_chunk_label (i : nat) : list N :=
  s_ds_part_1 ++ str_of_nat (i + 1) ++ s_ds_part_2 ++ nl ++ nl.
Definition claude_single_label : list N := s_cl_output ++ nl ++ nl.
Definition claude_chunk_label (total i : nat) : list N :=
  s_cl_part_1 ++ str_of_nat (i + 1) ++ s_cl_part_2 ++ str_of_nat total
    ++ s_cl_part_3 ++ nl ++ nl.
Definition fetch_label : list N := s_content ++ nl ++ nl.

(** The final replies of the handlers, as lists. *)
Definition deepseek_final (response : list N) : list (list N) :=
  if 4000 <? length response
  then imap deepseek_chunk_reply (chunks_of response 4000)
  else [deepseek_reply response].

Definition claude_final (output : list N) : list (list N) :=
  if 3800 <? length output
  then let chunks := chunks_of output 3800 in
       imap (claude_chunk_reply (length chunks)) chunks
  else [claude_reply output].

Definition claude_failure_reply (r : exec_result) : list N :=
  s_cl_exit_1 ++ str_of_int (return_code r) ++ s_cl_exit_2 ++ nl ++ nl ++ claude_error_msg r.

Definition update_replies (u : status_update) : list (list N) :=
  match u with
  | SUResult r => if success r then claude_final (claude_output r) else [claude_failure_reply r]
  | _ => []
  end.

Definition fetch_final (content : list N) : list N :=
  s_content ++ nl ++ nl ++ fetch_truncate content.

Definition fetch_announce (url : list N) : list N :=
  s_fetching ++ url ++ nl ++ nl ++ s_please_wait.

(** A status or progress update, or one the handler ignores. *)
Definition is_progress (u : status_update) : bool :=
  match u with SUResult _ => false | _ => true end.

(** The status text an update puts on the status message. *)
Definition update_edits (status_msg : Message) (u : status_update)
    : list (Message * list N) :=
  match u with
  | SUStatus msg => [(status_msg, s_cl_status ++ msg)]
  | SUProgress msg => [(status_msg, s_cl_progress ++ msg)]
  | SUResult r => [(status_msg, if success r then s_cl_done else s_cl_failed)]
  | SUOther => []
  end.

(** An event that is an attempt to reply with [text], or a wait. *)
Definition only_reply (text : list N) (ev : event) : Prop :=
  match ev with
  | EvReply _ t _ => t = text
  | EvSleep _ => True
  | EvEdit _ _ _ => False
  end.

(** The world after one call of the transport: the events and log lines
    the call and its handling added. *)
Definition advance (w : world) (evs : list event) (ls : list (level * list N)) : world :=
  {| transport := transport w; calls := S (calls w);
     trace := trace w ++ evs; logs := logs w ++ ls |}.

(** Weakest precondition over a transport [tr]: from any world with that
    transport the coroutine returns a value [a], leaves the transport as
    it was, and the transport has accepted the replies [rs] and the edits
    [es], in that order and nothing else, with [post a rs es]. *)
Definition wp {A} (tr : nat -> result Message) (m : Commands.M A)
    (post : A -> list (list N) -> list (Message * list N) -> Prop) : Prop :=
  forall w, transport w = tr ->
  exists a w' rs es,
    m w = (Ret a, w')
    /\ transport w' = tr
    /\ sent_replies (trace w') = sent_replies (trace w) ++ rs
    /\ applied_edits (trace w') = applied_edits (trace w) ++ es
    /\ post a rs es.

(** An event that is an attempt to edit [target] to [text], or a wait. *)
Definition only_edit (target : Message) (text : list N) (ev : event) : Prop :=
  match ev with
  | EvEdit m t _ => m = target /\ t = text
  | EvSleep _ => True
  | EvReply _ _ _ => False
  end.

(** The waits of the exponential backoff from attempt [a] on:
    [2^a], [2^(a+1)], ... ([k] of them). *)
Definition backoff (a k : nat) : list nat := map (Nat.pow 2) (seq a k).

(** What a retry loop that starts at attempt [a] did between the world [w]
    and the world [w']: it added the events [evs], one call of the
    transport per attempt, waited [2^a], [2^(a+1)], ... between the
    attempts, and every attempt but the last failed transiently. *)
Record retried (a : nat) (w w' : world) (evs : list event) : Prop := MkRetried {
  retried_trace : trace w' = trace w ++ evs;
  retried_transport : transport w' = transport w;
  retried_calls : calls w' = calls w + attempts evs;
  retried_sleeps : sleeps evs = backoff a (attempts evs - 1);
  retried_before :
    forall j, S j < attempts evs -> transient (transport w (calls w + j)) = true
}.

(** The answer of the transport to the last of the attempts [evs] made
    from [w]. *)
Definition last_answer (w : world) (evs : list event) : result Message :=
  transport w (calls w + attempts evs - 1).

(** As [wp], for a coroutine that may raise: [post] reads what it returned
    or raised. *)
Definition outcome {A} (tr : nat -> result Message) (m : Commands.M A)
    (post : result A -> list (list N) -> list (Message * list N) -> Prop) : Prop :=
  forall w, transport w = tr ->
  exists r w' rs es,
    m w = (r, w')
    /\ transport w' = tr
    /\ sent_replies (trace w') = sent_replies (trace w) ++ rs
    /\ applied_edits (trace w') = applied_edits (trace w) ++ es
    /\ post r rs es.



(** The last reply of [/fetch], by what the service did. *)
Definition fetch_last_reply (answer : result (list N)) : list N :=
  match answer with
  | Ret content => fetch_final content
  | Raise e => s_error_fetching ++ exn_str e
  end.

(** What the end of the execution stream adds: nothing, or the error
    status and the error reply. *)
Definition failure_replies (failure : option exn) : list (list N) :=
  match failure with
  | None => []
  | Some e => [s_error ++ exn_str e]
  end.

Definition failure_edits (status_msg : Message) (failure : option exn)
    : list (Message * list N) :=
  match failure with
  | None => []
  | Some _ => [(status_msg, s_cl_error)]
  end.

(** The events of [k] consecutive attempts from attempt number [a], the
    transport being at its call [c]: every attempt but the last is
    followed by the wait [2^a], the last by nothing. *)
Fixpoint attempts_trace (attempt : result Message -> event)
    (tr : nat -> result Message) (c a k : nat) : list event :=
  match k with
  | 0 => []
  | S k' =>
    attempt (tr c)
      :: match k' with
         | 0 => []
         | S _ => EvSleep (2 ^ a) :: attempts_trace attempt tr (S c) (S a) k'
         end
  end.

(** The replies the transport accepted, in order, each with the message
    it answers to, its text and the message the transport returned for
    it. *)
Definition answered_replies (evs : list event) : list (Message * list N * Message) :=
  omap (fun ev => match ev with
                  | EvReply to text (Ret m) => Some (to, text, m)
                  | _ => None
                  end) evs.

(** A coroutine that only adds to the trace. *)
Definition grows {A} (m : Commands.M A) : Prop :=
  forall w, exists evs, trace (m w).2 = trace w ++ evs.

End CommandsProps.

Module ClaudeCodeProps.
Import Py Eff ClaudeCode.

(** The specification's reading of the extraction: the text of every
    "text" block and the stringified payload of every "tool_use" block, in
    response order, joined by newlines; "Operation completed" when there
    is none. *)
Definition spec_block_part (env : Env) (block : value) : list (list N) :=
  match block with
  | VDict d =>
    if eq_str (get d s_type) s_text then
      match get_default d s_text (VStr []) with VStr t => [t] | _ => [] end
    else if eq_str (get d s_type) s_tool_use then
      [str_of_value (repr_other env) (get_default d s_content (VStr []))]
    else []
  | _ => []
  end.

Definition spec_blocks (data : list (list N * value)) : list value :=
  match get data s_content with VList blocks => blocks | _ => [] end.

Definition spec_extract (env : Env) (data : list (list N * value)) : list N :=
  match flat_map (spec_block_part env) (spec_blocks data) with
  | [] => s_operation_completed
  | parts => join nl parts
  end.

(** What a block contributes in the code: a "tool_use" block counts only
    when its payload is truthy. *)
Definition block_part (env : Env) (d : list (list N * value)) : list (list N) :=
  if eq_str (get d s_type) s_text then
    match get_default d s_text (VStr []) with VStr t => [t] | _ => [] end
  else if eq_str (get d s_type) s_tool_use then
    let tool_result := get_default d s_content (VStr []) in
    if truthy tool_result then [str_of_value (repr_other env) tool_result] else []
  else [].

(** A block the extraction can read: a "text" block's text, when present,
    is a [str]. *)
Definition readable (d : list (list N * value)) : Prop :=
  eq_str (get d s_type) s_text = true ->
  exists t, get_default d s_text (VStr []) = VStr t.

End ClaudeCodeProps.

Module McpServerProps.
Import Py Eff McpServer.

(** The bot [get_bot] hands out from a world: the global when it is set,
    else one made from a non-empty token. *)
Definition the_bot (env : Env) (w : world) : option Bot :=
  match bot w with
  | Some b => Some b
  | None =>
    match TELEGRAM_BOT_TOKEN env with
    | Some (c :: t) => Some (MkBot (c :: t))
    | _ => None
    end
  end.

(** The entry of one update in the listing of [get_updates]: nothing for
    an update without a message. *)
Definition entry (update : Update) : list N :=
  match message update with
  | None => []
  | Some msg =>
    match from_user msg with
    | None => []
    | Some u =>
      s_from ++ first_name u ++ s_at ++ str_of_optional (username u) ++ s_close ++ nl
        ++ s_chat_id_label ++ str_of_int (msg_chat_id msg) ++ nl
        ++ s_text_label ++ str_of_optional (msg_text msg) ++ nl
        ++ s_date_label ++ date msg ++ nl ++ nl
    end
  end.

(** An update whose message, if it has one, has a sender. *)
Definition has_sender (update : Update) : bool :=
  match message update with
  | Some msg => match from_user msg with Some _ => true | None => false end
  | None => true
  end.

(** The keys a tool's schema lists as required, and the default it
    advertises for a property. *)
Definition required_keys (t : Tool) : list (list N) :=
  match inputSchema t with
  | VDict schema =>
    match get schema s_required_key with
    | VList ks => omap (fun k => match k with VStr k => Some k | _ => None end) ks
    | _ => []
    end
  | _ => []
  end.

Definition advertised_default (t : Tool) (k : list N) : option value :=
  match inputSchema t with
  | VDict schema =>
    match get schema s_properties with
    | VDict properties =>
      match dict_get properties k with
      | Some (VDict property) => dict_get property s_default
      | _ => None
      end
    | _ => None
    end
  | _ => None
  end.

End McpServerProps.

(** ** Concrete inputs *)

Module Examples.
Import Py Eff.

(** A transport that accepts every call. *)
Definition ok_transport : nat -> result Commands.Message :=
  fun k => Ret (Commands.MkMessage (Z.of_nat k)).

(** A transport that times out on every other call, starting with the
    first. *)
Definition flaky_transport : nat -> result Commands.Message :=
  fun k => if Nat.even k
           then Raise (MkExn TimedOut (lit "Timed out"))
           else Ret (Commands.MkMessage (Z.of_nat k)).

(** A transport that times out on every call. *)
Definition down_transport : nat -> result Commands.Message :=
  fun _ => Raise (MkExn TimedOut (lit "Timed out")).

(** A transport that refuses every call: the bot was blocked, which is a
    [TelegramError] but not a [NetworkError]. *)
Definition blocked_transport : nat -> result Commands.Message :=
  fun _ => Raise (MkExn TelegramError (lit "Forbidden: bot was blocked by the user")).

(** A transport that times out twice and then accepts. *)
Definition third_time_transport : nat -> result Commands.Message :=
  fun k => if k <? 2
           then Raise (MkExn TimedOut (lit "Timed out"))
           else Ret (Commands.MkMessage 7).

Definition a_update : Commands.Update := Commands.MkUpdate (Commands.MkMessage 1000).
Definition a_status : Commands.Message := Commands.MkMessage 1.
Definition no_args : Commands.Context := Commands.MkContext [].
Definition some_args : Commands.Context :=
  Commands.MkContext [lit "https://example.com"].

(** Texts just above the thresholds. *)
Definition text_4001 : list N := repeat 97%N 4001.
Definition text_3801 : list N := repeat 98%N 3801.

(** Services that return the texts above; the stream has a status, a
    progress and one successful result. *)
Definition long_services : Commands.services :=
  Commands.MkServices
    (fun _ => Ret text_4001)
    (fun _ => Ret text_4001)
    (fun _ => ([Commands.SUStatus (lit "starting"); Commands.SUProgress (lit "50%");
                Commands.SUResult (Commands.MkExecResult text_3801 [] 0 true)], None)).

(** Services whose execution stream ends with a blank output. *)
Definition blank_services : Commands.services :=
  Commands.MkServices
    (fun _ => Ret (lit "page"))
    (fun _ => Ret (lit "answer"))
    (fun _ => ([Commands.SUStatus (lit "starting");
                Commands.SUResult (Commands.MkExecResult [32%N; 10%N; 9%N] [] 0 true)], None)).

(** The stream of the specification's scenario: a status, a progress and
    a successful result whose stdout is "done". *)
Definition done_services : Commands.services :=
  Commands.MkServices
    (fun _ => Ret (repeat 99%N 5000))
    (fun _ => Ret (lit "answer"))
    (fun _ => ([Commands.SUStatus (lit "starting"); Commands.SUProgress (lit "50%");
                Commands.SUResult (Commands.MkExecResult (lit "done") [] 0 true)], None)).

(** A configuration with a key, and responses of the endpoint. *)
Definition a_config : ClaudeCode.Config :=
  ClaudeCode.MkConfig 300 (Some (lit "sk-test")) (lit "/srv/work")
    (lit "claude-3-5-sonnet") (lit "https://api.anthropic.com/v1/messages").

Definition done_data : list (list N * value) :=
  [(lit "content",
    VList [VDict [(lit "type", VStr (lit "text")); (lit "text", VStr (lit "done"))]])].

Definition empty_content_data : list (list N * value) :=
  [(lit "content", VList [])].

Definition ok_response : ClaudeCode.Response :=
  ClaudeCode.MkResponse 200 (lit "{...}") (Ret done_data).

Definition created_response : ClaudeCode.Response :=
  ClaudeCode.MkResponse 201 (lit "{...}") (Ret done_data).

Definition env_answering (resp : ClaudeCode.Response) : ClaudeCode.Env :=
  ClaudeCode.MkEnv (fun _ => Ret resp) (fun _ => lit "...").

(** A facade whose token is set, and whose Bot API refuses to send and
    has no update. *)
Definition mcp_env : McpServer.Env :=
  McpServer.MkEnv (Some (lit "123:abc"))
    (fun _ _ _ => Raise (MkExn TelegramError (lit "Chat not found")))
    (fun _ _ => Ret [])
    true.

Definition mcp_start : McpServer.world := McpServer.MkWorld None [].

Definition send_args : value :=
  VDict [(lit "chat_id", VStr (lit "@someone")); (lit "text", VStr (lit "hello"))].

Definition send_args_without_text : value :=
  VDict [(lit "chat_id", VStr (lit "@someone"))].

(** Services that fail: the fetcher and the stream with a plain
    exception, DeepSeek with its missing-key [ValueError]. *)
Definition failing_services : Commands.services :=
  Commands.MkServices
    (fun _ => Raise (MkExn Exception (lit "connection refused")))
    (fun _ => Raise (MkExn ValueError (lit "DEEPSEEK_API_KEY is not configured")))
    (fun _ => ([Commands.SUStatus (lit "starting")],
               Some (MkExn Exception (lit "stream closed")))).

(** A facade with a token whose Bot API accepts a message and has three
    updates: one without a message, two with a message and a sender. *)
Definition an_update (who : list N) : McpServer.Update :=
  McpServer.MkUpdate
    (Some (McpServer.MkMessage (Some (McpServer.MkUser who None)) 42 (Some (lit "hi"))
             (lit "2024-01-01 00:00:00+00:00"))).

Definition three_updates : list McpServer.Update :=
  [McpServer.MkUpdate None; an_update (lit "Ann"); an_update (lit "Bob")].

Definition mcp_live_env : McpServer.Env :=
  McpServer.MkEnv (Some (lit "123:abc"))
    (fun _ _ _ => Ret (McpServer.MkSentMessage 42 7))
    (fun _ _ => Ret three_updates)
    true.

(** A facade without a token, and one run as a script. *)
Definition mcp_no_token_env : McpServer.Env :=
  McpServer.MkEnv None
    (fun _ _ _ => Ret (McpServer.MkSentMessage 42 7))
    (fun _ _ => Ret three_updates)
    true.

Definition mcp_script_env : McpServer.Env :=
  McpServer.MkEnv (Some (lit "123:abc"))
    (fun _ _ _ => Ret (McpServer.MkSentMessage 42 7))
    (fun _ _ => Ret three_updates)
    false.

(** A stdout of 3802 characters: 3800 letters between two newlines; and
    services whose execution stream ends with it. *)
Definition padded_3802 : list N := 10%N :: repeat 98%N 3800 ++ [10%N].

Definition padded_services : Commands.services :=
  Commands.MkServices
    (fun _ => Ret text_4001)
    (fun _ => Ret text_4001)
    (fun _ => ([Commands.SUResult (Commands.MkExecResult padded_3802 [] 0 true)], None)).

(** A transport that times out once and then refuses every call. *)
Definition timeout_then_blocked_transport : nat -> result Commands.Message :=
  fun k => match k with
           | 0 => Raise (MkExn TimedOut (lit "Timed out"))
           | _ => Raise (MkExn TelegramError (lit "Forbidden: bot was blocked by the user"))
           end.

End Examples.

(** ** Lists: ranges and chunks *)

Section Chunks.
Import Py Props.
Context {A : Type}.
Implicit Types (s : list A) (n i : nat).

Lemma ceil_div_small a b : 0 < a -> a <= b -> ceil_div a b = 1.
Proof.
  intros Ha Hb. unfold ceil_div.
  replace (a + b - 1) with (1 * b + (a - 1)) by lia.
  rewrite Nat.div_add_l by lia. rewrite Nat.div_small by lia. lia.
Qed.

Lemma ceil_div_step a b : 0 < b -> ceil_div (a + b) b = S (ceil_div a b).
Proof.
  intros Hb. unfold ceil_div.
  replace (a + b + b - 1) with (1 * b + (a + b - 1)) by lia.
  rewrite Nat.div_add_l by lia. lia.
Qed.

Lemma ceil_div_0 b : 0 < b -> ceil_div 0 b = 0.
Proof. intros Hb. unfold ceil_div. apply Nat.div_small. lia. Qed.

(** [range] visits [i], [i + step], ... below [stop]. *)
Lemma range_from_spec step (Hstep : 0 < step) fuel : forall i stop,
  stop - i <= fuel ->
  range_from fuel i stop step
  = map (fun k => i + k * step) (seq 0 (ceil_div (stop - i) step)).
Proof.
  induction fuel as [|fuel IH]; intros i stop Hfuel; simpl.
  - replace (stop - i) with 0 by lia. by rewrite ceil_div_0.
  - destruct (Nat.ltb_spec i stop) as [Hlt|Hge].
    + destruct (decide (stop - i <= step)) as [Hsmall|Hbig].
      * rewrite ceil_div_small by lia. simpl.
        rewrite IH by lia. replace (stop - (i + step)) with 0 by lia.
        rewrite ceil_div_0 by lia. simpl. f_equal. lia.
      * replace (stop - i) with ((stop - (i + step)) + step) by lia.
        rewrite ceil_div_step by lia. simpl. f_equal; [lia|].
        rewrite IH by lia. rewrite <- seq_shift, map_map.
        apply map_ext. intros k. lia.
    + replace (stop - i) with 0 by lia. by rewrite ceil_div_0.
Qed.

Lemma range_spec stop step :
  0 < step ->
  range 0 stop step = map (fun k => k * step) (seq 0 (ceil_div stop step)).
Proof.
  intros Hstep. unfold range. rewrite range_from_spec by lia.
  rewrite Nat.sub_0_r. apply map_ext. intros k. lia.
Qed.

End Chunks.

Section ChunksOf.
Import Py Props Commands.
Implicit Types (s : list N) (n i : nat).

Lemma slice_take_drop s i n : slice s i (i + n) = take n (drop i s).
Proof. unfold slice. f_equal. lia. Qed.

Lemma chunks_of_eq s n :
  0 < n ->
  chunks_of s n
  = map (fun k => take n (drop (k * n) s)) (seq 0 (ceil_div (length s) n)).
Proof.
  intros Hn. unfold chunks_of, len. rewrite range_spec by done.
  rewrite map_map. apply map_ext. intros k. apply slice_take_drop.
Qed.

Lemma chunks_of_length s n : 0 < n -> length (chunks_of s n) = ceil_div (length s) n.
Proof. intros Hn. by rewrite chunks_of_eq, length_map, length_seq. Qed.

Lemma chunks_of_lookup s n i :
  0 < n -> i < ceil_div (length s) n ->
  chunks_of s n !! i = Some (take n (drop (i * n) s)).
Proof.
  intros Hn Hi. rewrite chunks_of_eq by done.
  rewrite list_lookup_fmap, lookup_seq_lt by done. done.
Qed.

(** The pieces cut from position [i] on, put end to end, are the text from
    [i] on. *)
Lemma concat_slices s n (Hn : 0 < n) fuel : forall i,
  length s - i <= fuel ->
  concat (map (fun j => slice s j (j + n)) (range_from fuel i (length s) n)) = drop i s.
Proof.
  induction fuel as [|fuel IH]; intros i Hfuel; simpl.
  - symmetry. apply drop_ge. lia.
  - destruct (Nat.ltb_spec i (length s)) as [Hlt|Hge]; simpl.
    + rewrite IH by lia. rewrite slice_take_drop.
      rewrite <- (take_drop n (drop i s)) at 2. rewrite drop_drop. done.
    + symmetry. apply drop_ge. lia.
Qed.

Lemma concat_chunks_of s n : 0 < n -> concat (chunks_of s n) = s.
Proof.
  intros Hn. unfold chunks_of, range, len.
  rewrite concat_slices by lia. done.
Qed.

End ChunksOf.

(** ** The delivery primitives *)

Section Delivery.
Import Py Eff Commands CommandsProps.
Implicit Types (w : world) (text : list N) (tr : nat -> result Message).

Lemma sent_replies_app t1 t2 : sent_replies (t1 ++ t2) = sent_replies t1 ++ sent_replies t2.
Proof. unfold sent_replies. apply omap_app. Qed.

Lemma applied_edits_app t1 t2 :
  applied_edits (t1 ++ t2) = applied_edits t1 ++ applied_edits t2.
Proof. unfold applied_edits. apply omap_app. Qed.

Lemma sleeps_app t1 t2 : sleeps (t1 ++ t2) = sleeps t1 ++ sleeps t2.
Proof. unfold sleeps. apply omap_app. Qed.

Lemma attempts_app t1 t2 : attempts (t1 ++ t2) = attempts t1 + attempts t2.
Proof. unfold attempts. by rewrite omap_app, length_app. Qed.

(** One turn of the retry loop of [safe_reply]. *)
Lemma safe_reply_loop_cons message text n a rest w :
  safe_reply_loop message text n (a :: rest) w
  = match transport w (calls w) with
    | Ret m => (Ret (Some m), advance w [EvReply message text (Ret m)] [])
    | Raise e =>
      if is_network_error e then
        if a <? n - 1 then
          safe_reply_loop message text n rest
            (advance w [EvReply message text (Raise e); EvSleep (2 ^ a)]
               [(WARNING, msg_network_error a e)])
        else
          (Raise e, advance w [EvReply message text (Raise e)]
                      [(WARNING, msg_network_error a e); (ERROR, msg_failed_send n)])
      else (Raise e, advance w [EvReply message text (Raise e)] [])
    end.
Proof.
  cbn [safe_reply_loop]. unfold try_except, reply_text, advance.
  cbv [mbind M_bind mret M_ret].
  destruct (transport w (calls w)) as [m|e] eqn:Hk.
  - by rewrite app_nil_r.
  - destruct (is_network_error e); [|by rewrite app_nil_r].
    unfold log, sleep, raise. cbn [transport calls trace logs].
    destruct (a <? n - 1); cbn [transport calls trace logs];
      by rewrite <- ?app_assoc.
Qed.

(** One turn of the retry loop of [safe_edit]: the last failure is
    swallowed. *)
Lemma safe_edit_loop_cons message text n a rest w :
  safe_edit_loop message text n (a :: rest) w
  = match transport w (calls w) with
    | Ret m => (Ret (Some m), advance w [EvEdit message text (Ret m)] [])
    | Raise e =>
      if is_network_error e then
        if a <? n - 1 then
          safe_edit_loop message text n rest
            (advance w [EvEdit message text (Raise e); EvSleep (2 ^ a)]
               [(WARNING, msg_network_error a e)])
        else
          (Ret None, advance w [EvEdit message text (Raise e)]
                       [(WARNING, msg_network_error a e); (ERROR, msg_failed_edit n)])
      else (Raise e, advance w [EvEdit message text (Raise e)] [])
    end.
Proof.
  cbn [safe_edit_loop]. unfold try_except, edit_text, advance.
  cbv [mbind M_bind mret M_ret].
  destruct (transport w (calls w)) as [m|e] eqn:Hk.
  - by rewrite app_nil_r.
  - destruct (is_network_error e); [|by rewrite app_nil_r].
    unfold log, sleep, raise. cbn [transport calls trace logs].
    destruct (a <? n - 1); cbn [transport calls trace logs];
      by rewrite <- ?app_assoc.
Qed.

Lemma safe_reply_unfold message text w :
  safe_reply message text w = safe_reply_loop message text 3 [0; 1; 2] w.
Proof. done. Qed.

Lemma safe_edit_unfold message text w :
  safe_edit message text w = safe_edit_loop message text 3 [0; 1; 2] w.
Proof. done. Qed.

Lemma wp_ret {A} tr (a : A) post : post a [] [] -> wp tr (mret a) post.
Proof. intros Hpost w Htr. exists a, w, [], []. by rewrite !app_nil_r. Qed.

Lemma wp_bind {A B} tr (m : Commands.M A) (f : A -> Commands.M B) post :
  wp tr m (fun a rs es => wp tr (f a) (fun b rs' es' => post b (rs ++ rs') (es ++ es'))) ->
  wp tr (m ≫= f) post.
Proof.
  intros Hm w Htr.
  destruct (Hm w Htr) as (a & w1 & rs & es & Hrun & Htr1 & Hrs & Hes & Hf).
  destruct (Hf w1 Htr1) as (b & w2 & rs' & es' & Hrun' & Htr2 & Hrs' & Hes' & Hpost).
  exists b, w2, (rs ++ rs'), (es ++ es'). unfold mbind, M_bind. rewrite Hrun, Hrun'.
  by rewrite Hrs', Hrs, Hes', Hes, !app_assoc.
Qed.

Lemma wp_mono {A} tr (m : Commands.M A) (post post' : _ -> _ -> _ -> Prop) :
  wp tr m post -> (forall a rs es, post a rs es -> post' a rs es) -> wp tr m post'.
Proof.
  intros Hm Himp w Htr.
  destruct (Hm w Htr) as (a & w' & rs & es & ? & ? & ? & ? & ?).
  exists a, w', rs, es. auto 10.
Qed.

Lemma wp_lift {A} tr (a : A) post : post a [] [] -> wp tr (lift (Ret a)) post.
Proof. apply wp_ret. Qed.

Lemma wp_try_except {A} tr (body : Commands.M A) handler post :
  wp tr body post -> wp tr (try_except body handler) post.
Proof.
  intros Hbody w Htr.
  destruct (Hbody w Htr) as (a & w' & rs & es & Hrun & ?).
  exists a, w', rs, es. unfold try_except. by rewrite Hrun.
Qed.

Lemma wp_try_let {A B} tr (first : Commands.M A) (rest : A -> Commands.M B) handler post :
  wp tr first
    (fun a rs es => wp tr (rest a) (fun b rs' es' => post b (rs ++ rs') (es ++ es'))) ->
  wp tr (try_let first rest handler) post.
Proof.
  intros Hm w Htr.
  destruct (Hm w Htr) as (a & w1 & rs & es & Hrun & Htr1 & Hrs & Hes & Hf).
  destruct (Hf w1 Htr1) as (b & w2 & rs' & es' & Hrun' & Htr2 & Hrs' & Hes' & Hpost).
  exists b, w2, (rs ++ rs'), (es ++ es'). unfold try_let. rewrite Hrun, Hrun'.
  by rewrite Hrs', Hrs, Hes', Hes, !app_assoc.
Qed.

(** A loop whose turns each deliver [R x] and apply [E x]. *)
Lemma wp_for_each {A} tr (l : list A) (body : A -> Commands.M unit) R E :
  (forall x, x ∈ l -> wp tr (body x) (fun _ rs es => rs = R x /\ es = E x)) ->
  wp tr (for_each l body)
    (fun _ rs es => rs = concat (map R l) /\ es = concat (map E l)).
Proof.
  induction l as [|x l IH]; intros Hbody; cbn [for_each map concat].
  - by apply wp_ret.
  - apply wp_bind. eapply wp_mono; [apply Hbody; left|].
    intros _ rs es [-> ->]. eapply wp_mono.
    + apply IH. intros y Hy. apply Hbody. by right.
    + intros _ rs es [-> ->]. done.
Qed.

Ltac transport_cases tr k :=
  let e := fresh "e" in let He := fresh "He" in
  destruct (tr k) as [?|e] eqn:?; cbn [delivered transient orb andb] in *;
  [|destruct (is_network_error e) eqn:He; cbn [orb andb] in *; [|discriminate]].

Ltac finish_run :=
  eexists _, _, _, _; split; [reflexivity|]; split; [reflexivity|];
  cbn [advance trace transport];
  rewrite ?sent_replies_app, ?applied_edits_app, <- ?app_assoc;
  split; [reflexivity|]; split; [reflexivity|]; cbn; auto.

(** Under a responsive transport [safe_reply] delivers the reply, once. *)
Lemma wp_safe_reply tr message text post :
  responsive tr ->
  (forall m, post (Some m) [text] []) ->
  wp tr (safe_reply message text) post.
Proof.
  intros Hresp Hpost w <-. specialize (Hresp (calls w)). unfold responsive_at in Hresp.
  rewrite safe_reply_unfold, safe_reply_loop_cons.
  transport_cases (transport w) (calls w).
  { finish_run. }
  rewrite safe_reply_loop_cons. cbn [advance transport calls Nat.ltb Nat.leb Nat.sub].
  transport_cases (transport w) (S (calls w)).
  { finish_run. }
  rewrite safe_reply_loop_cons. cbn [advance transport calls Nat.ltb Nat.leb Nat.sub].
  transport_cases (transport w) (S (S (calls w))); [|discriminate].
  finish_run.
Qed.

(** Under a responsive transport [safe_edit] applies the edit, once. *)
Lemma wp_safe_edit tr message text post :
  responsive tr ->
  (forall r, post r [] [(message, text)]) ->
  wp tr (safe_edit message text) post.
Proof.
  intros Hresp Hpost w <-. specialize (Hresp (calls w)). unfold responsive_at in Hresp.
  rewrite safe_edit_unfold, safe_edit_loop_cons.
  transport_cases (transport w) (calls w).
  { finish_run. }
  rewrite safe_edit_loop_cons. cbn [advance transport calls Nat.ltb Nat.leb Nat.sub].
  transport_cases (transport w) (S (calls w)).
  { finish_run. }
  rewrite safe_edit_loop_cons. cbn [advance transport calls Nat.ltb Nat.leb Nat.sub].
  transport_cases (transport w) (S (S (calls w))); [|discriminate].
  finish_run.
Qed.

(** Under a reliable transport a direct [reply_text] delivers the reply. *)
Lemma wp_reply_text tr message text post :
  reliable tr ->
  (forall m, post m [text] []) ->
  wp tr (reply_text message text) post.
Proof.
  intros Hrel Hpost w <-. specialize (Hrel (calls w)).
  unfold reply_text. destruct (transport w (calls w)) as [m|e] eqn:Hk; [|discriminate].
  eexists _, _, _, _; split; [reflexivity|]; split; [reflexivity|].
  cbn [trace]. rewrite sent_replies_app, applied_edits_app.
  split; [reflexivity|]; split; [reflexivity|]. cbn. auto.
Qed.

Lemma reliable_responsive tr : reliable tr -> responsive tr.
Proof. intros Hrel k. unfold responsive_at. by rewrite Hrel. Qed.

End Delivery.

(** ** The handlers under a responsive transport *)

Section Handlers.
Import Py Eff Props Commands CommandsProps.
Implicit Types (tr : nat -> result Message) (text : list N).

Lemma concat_singletons_from {A B} (f : nat -> A -> B) (l : list A) : forall k,
  concat (map (fun '(i, x) => [f i x]) (imap (fun i x => (k + i, x)) l))
  = imap (fun i => f (k + i)) l.
Proof.
  induction l as [|x l IH]; intros k; [done|].
  rewrite !imap_cons. cbn [map concat app]. f_equal.
  rewrite (imap_ext _ (fun i x => (S k + i, x))) by (intros; cbn; f_equal; lia).
  rewrite IH. apply imap_ext. intros i y _. cbn. f_equal. lia.
Qed.

Lemma concat_singletons {A B} (f : nat -> A -> B) (l : list A) :
  concat (map (fun '(i, x) => [f i x]) (enumerate l)) = imap f l.
Proof. apply (concat_singletons_from f l 0). Qed.

Lemma concat_nils {A B} (l : list A) : concat (map (fun _ => @nil B) l) = [].
Proof. induction l; auto. Qed.

(** The loop over the numbered chunks sends one labelled reply per chunk. *)
Lemma wp_reply_chunks tr message (reply : nat -> list N -> list N) chunks :
  responsive tr ->
  wp tr (for_each (enumerate chunks)
           (fun '(i, chunk) => safe_reply message (reply i chunk);; mret tt))
    (fun _ rs es => rs = imap reply chunks /\ es = []).
Proof.
  intros Hresp.
  eapply wp_mono.
  - apply (wp_for_each tr _ _ (fun '(i, chunk) => [reply i chunk]) (fun _ => [])).
    intros [i chunk] _. apply wp_bind. apply wp_safe_reply; [done|]. intros m.
    by apply wp_ret.
  - intros _ rs es [-> ->]. by rewrite concat_singletons, concat_nils.
Qed.

(** [/deepseek] with arguments, when the service answers. *)
Lemma wp_deepseek_command tr svc update context response :
  responsive tr ->
  args context <> [] ->
  query_deepseek svc (join [32%N] (args context)) = Ret response ->
  wp tr (deepseek_command svc update context)
    (fun _ rs es =>
       rs = s_ds_thinking :: deepseek_final response
       /\ exists status_msg,
            es = [(status_msg, s_ds_processing); (status_msg, s_ds_done)]).
Proof.
  intros Hresp Hargs Hquery. unfold deepseek_command.
  destruct (args context) as [|a rest] eqn:Ha; [done|].
  apply wp_try_let. apply wp_safe_reply; [done|]. intros status_msg.
  apply wp_bind. apply wp_safe_edit; [done|]. intros _.
  apply wp_bind. rewrite Hquery. apply wp_lift.
  apply wp_bind. apply wp_safe_edit; [done|]. intros _.
  unfold deepseek_final, len.
  destruct (4000 <? length response).
  - eapply wp_mono; [by apply wp_reply_chunks|].
    intros _ rs es [-> ->]. split; [done|]. by exists status_msg.
  - apply wp_bind. apply wp_safe_reply; [done|]. intros m. apply wp_ret.
    split; [done|]. by exists status_msg.
Qed.

(** One update of the execution stream. *)
Lemma wp_claude_on_update tr update status_msg u :
  responsive tr ->
  wp tr (claude_on_update update status_msg u)
    (fun _ rs es => rs = update_replies u /\ es = update_edits status_msg u).
Proof.
  intros Hresp. destruct u as [msg|msg|r|]; cbn [claude_on_update update_replies update_edits].
  - apply wp_bind. apply wp_safe_edit; [done|]. intros _. by apply wp_ret.
  - apply wp_bind. apply wp_safe_edit; [done|]. intros _. by apply wp_ret.
  - destruct (success r).
    + apply wp_bind. apply wp_safe_edit; [done|]. intros _.
      unfold claude_final, len. destruct (3800 <? length (claude_output r)).
      * eapply wp_mono; [by apply wp_reply_chunks|]. by intros _ rs es [-> ->].
      * apply wp_bind. apply wp_safe_reply; [done|]. intros m. by apply wp_ret.
    + apply wp_bind. apply wp_safe_edit; [done|]. intros _.
      apply wp_bind. apply wp_safe_reply; [done|]. intros m. by apply wp_ret.
  - by apply wp_ret.
Qed.

(** [/claude] with arguments, when the stream ends without an exception. *)
Lemma wp_claude_command tr svc update context updates :
  responsive tr ->
  args context <> [] ->
  execute_claude_code_with_status svc (join [32%N] (args context)) = (updates, None) ->
  wp tr (claude_command svc update context)
    (fun _ rs es =>
       rs = s_cl_starting :: concat (map update_replies updates)
       /\ exists status_msg, es = concat (map (update_edits status_msg) updates)).
Proof.
  intros Hresp Hargs Hstream. unfold claude_command.
  destruct (args context) as [|a rest] eqn:Ha; [done|].
  apply wp_try_let. apply wp_safe_reply; [done|]. intros status_msg.
  rewrite Hstream. apply wp_bind. eapply wp_mono.
  - apply wp_for_each. intros u _. by apply wp_claude_on_update.
  - intros _ rs es [-> ->]. apply wp_ret. rewrite !app_nil_r.
    split; [done|]. by exists status_msg.
Qed.

(** [/fetch] with an argument, when the service answers. *)
Lemma wp_fetch_command tr svc update context url rest content :
  reliable tr ->
  args context = url :: rest ->
  fetch_url_content svc url = Ret content ->
  wp tr (fetch_command svc update context)
    (fun _ rs es => rs = [fetch_announce url; fetch_final content] /\ es = []).
Proof.
  intros Hrel Hargs Hfetch. unfold fetch_command. rewrite Hargs.
  apply wp_bind. apply wp_reply_text; [done|]. intros _.
  apply wp_try_except. apply wp_bind. rewrite Hfetch. apply wp_lift.
  apply wp_bind. apply wp_reply_text; [done|]. intros _.
  by apply wp_ret.
Qed.

(** A run from the initial world. *)
Lemma wp_init {A} tr (m : Commands.M A) post :
  wp tr m post ->
  exists a w',
    m (init tr) = (Ret a, w')
    /\ post a (sent_replies (trace w')) (applied_edits (trace w')).
Proof.
  intros Hm. destruct (Hm (init tr) eq_refl) as (a & w' & rs & es & Hrun & _ & Hrs & Hes & Hpost).
  exists a, w'. split; [done|]. by rewrite Hrs, Hes.
Qed.

End Handlers.

(** ** Chunked and truncated outputs *)

Section Finalize.
Import Py Eff Props Commands CommandsProps Examples.
Implicit Types (tr : nat -> result Message) (output : list N).

Lemma imap_imap {A B C} (f : nat -> A -> B) (g : nat -> B -> C) (l : list A) :
  imap g (imap f l) = imap (fun i x => g i (f i x)) l.
Proof.
  revert f g. induction l as [|x l IH]; intros f g; [done|].
  rewrite !imap_cons. f_equal. apply IH.
Qed.

Lemma imap_id {A} (l : list A) : imap (fun _ x => x) l = l.
Proof. induction l as [|x l IH]; [done|]. rewrite imap_cons. by f_equal. Qed.

(** The labelled pieces of a text: what [delivers] asks for. *)
Lemma labelled_chunks_deliver threshold single_label chunk_label output :
  0 < threshold ->
  delivers threshold single_label chunk_label output
    (if threshold <? length output
     then imap (fun i c => chunk_label i ++ c) (chunks_of output threshold)
     else [single_label ++ output]).
Proof.
  intros Ht. unfold delivers.
  destruct (decide (length output <= threshold)) as [Hle|Hgt];
    destruct (Nat.ltb_spec threshold (length output)); try lia; [done|].
  split; [by rewrite length_imap, chunks_of_length|]. split.
  - intros i r Hr. rewrite list_lookup_imap in Hr.
    destruct (chunks_of output threshold !! i) as [c|]; [|done].
    injection Hr as <-. by rewrite take_app_length.
  - rewrite imap_imap. unfold strip_label.
    rewrite (imap_ext _ (fun _ c => c)).
    + by rewrite imap_id, concat_chunks_of.
    + intros i c _. by rewrite drop_app_length.
Qed.

(** The labelled pieces of a text: what [chunked] asks for. *)
Lemma labelled_chunks_chunked threshold single_label chunk_label output :
  0 < threshold ->
  chunked threshold single_label chunk_label output
    (if threshold <? length output
     then imap (fun i c => chunk_label i ++ c) (chunks_of output threshold)
     else [single_label ++ output]).
Proof.
  intros Ht. unfold chunked.
  destruct (decide (length output <= threshold)) as [Hle|Hgt];
    destruct (Nat.ltb_spec threshold (length output)); try lia; [done|].
  split; [by rewrite length_imap, chunks_of_length|].
  intros i Hi. rewrite length_imap, chunks_of_length in Hi by done.
  by rewrite list_lookup_imap, chunks_of_lookup.
Qed.

Lemma deepseek_final_labelled response :
  deepseek_final response
  = if 4000 <? length response
    then imap (fun i c => deepseek_chunk_label i ++ c) (chunks_of response 4000)
    else [deepseek_single_label ++ response].
Proof.
  unfold deepseek_final. destruct (4000 <? length response).
  - apply imap_ext. intros i c _.
    unfold deepseek_chunk_reply, deepseek_chunk_label. by rewrite <- !app_assoc.
  - unfold deepseek_reply, deepseek_single_label. by rewrite <- !app_assoc.
Qed.

Lemma claude_final_labelled output :
  claude_final output
  = if 3800 <? length output
    then imap (fun i c => claude_chunk_label (length (claude_final output)) i ++ c)
           (chunks_of output 3800)
    else [claude_single_label ++ output].
Proof.
  unfold claude_final. destruct (3800 <? length output).
  - cbv zeta. rewrite length_imap. apply imap_ext. intros i c _.
    unfold claude_chunk_reply, claude_chunk_label. by rewrite <- !app_assoc.
  - unfold claude_reply, claude_single_label. by rewrite <- !app_assoc.
Qed.

Lemma progress_sends_nothing pre :
  forallb is_progress pre = true -> concat (map update_replies pre) = [].
Proof.
  induction pre as [|u pre IH]; [done|]. cbn [forallb map concat].
  intros [Hu Hpre]%andb_prop. rewrite IH by done.
  by destruct u.
Qed.

(** A stream of progress updates closed by one result sends what the
    result sends. *)
Lemma stream_replies pre r :
  forallb is_progress pre = true ->
  concat (map update_replies (pre ++ [SUResult r])) = update_replies (SUResult r).
Proof.
  intros Hpre. rewrite map_app, concat_app, progress_sends_nothing by done.
  cbn [map concat app]. by rewrite app_nil_r.
Qed.

Lemma lstrip_spaces s : Forall (fun c => isspace c = true) s -> lstrip s = [].
Proof. induction 1 as [|c s Hc _ IH]; [done|]. cbn [lstrip]. by rewrite Hc. Qed.

Lemma strip_spaces s : Forall (fun c => isspace c = true) s -> strip s = [].
Proof. intros Hs. unfold strip, rstrip. by rewrite (lstrip_spaces s Hs). Qed.

Lemma flaky_responsive : responsive flaky_transport.
Proof.
  intros k. unfold responsive_at, flaky_transport.
  rewrite Nat.even_succ, <- Nat.negb_even.
  by destruct (Nat.even k).
Qed.

Lemma ok_reliable : reliable ok_transport.
Proof. by intros k. Qed.

End Finalize.

(** ** Claims on the command handlers *)

Section CommandClaims.
Import Py Eff Props Commands CommandsProps Examples.
Implicit Types (tr : nat -> result Message) (svc : services) (update : Update)
  (context : Context).

Lemma strip_unpadded (s : list N) first final :
  head s = Some first -> isspace first = false ->
  list.last s = Some final -> isspace final = false ->
  strip s = s.
Proof.
  intros Hhead Hfirst Hlast Hfinal. unfold strip, rstrip.
  assert (Hl : lstrip s = s).
  { destruct s as [|c r]; [done|]. injection Hhead as ->. cbn [lstrip]. by rewrite Hfirst. }
  rewrite Hl. apply last_Some in Hlast as [l ->].
  rewrite reverse_snoc. cbn [lstrip]. rewrite Hfinal.
  by rewrite <- reverse_snoc, reverse_involutive.
Qed.

(** C1, as stated, fails twice.  [/fetch], whose result is text-style,
    answers a content of 4001 characters with one reply (its first 4000
    characters and the truncation marker) where [ceil(4001/4000)] is 2.
    [/claude] answers a stdout of 3802 characters, 3800 letters between
    two newlines, with one reply holding the 3800 letters, where
    [ceil(3802/3800)] is 2: the handler measures and sends the stripped
    stdout. *)
Lemma C1_fetch_and_padded_stdout_get_one_reply :
  (let w' := (fetch_command long_services a_update some_args (init ok_transport)).2 in
   length text_4001 = 4001
   /\ ceil_div (length text_4001) 4000 = 2
   /\ drop 1 (sent_replies (trace w'))
      = [fetch_label ++ take 4000 text_4001 ++ nl ++ nl ++ s_truncated]
   /\ ~ exists single_label chunk_label,
          delivers 4000 single_label chunk_label text_4001
            (drop 1 (sent_replies (trace w'))))
  /\ (let w' := (claude_command padded_services a_update some_args
                   (init ok_transport)).2 in
      length padded_3802 = 3802
      /\ ceil_div (length padded_3802) 3800 = 2
      /\ drop 1 (sent_replies (trace w')) = [claude_single_label ++ repeat 98%N 3800]
      /\ ~ exists single_label chunk_label,
             delivers 3800 single_label chunk_label padded_3802
               (drop 1 (sent_replies (trace w')))).
Proof.
  cbv zeta. split.
  - split; [by vm_compute|]. split; [by vm_compute|]. split; [by vm_compute|].
    intros (single_label & chunk_label & Hdelivers). unfold delivers in Hdelivers.
    destruct (decide (length text_4001 <= 4000)) as [Hle|_].
    + vm_compute in Hle. lia.
    + destruct Hdelivers as [Hlen _]. vm_compute in Hlen. discriminate.
  - split; [by vm_compute|]. split; [by vm_compute|]. split; [by vm_compute|].
    intros (single_label & chunk_label & Hdelivers). unfold delivers in Hdelivers.
    destruct (decide (length padded_3802 <= 3800)) as [Hle|_].
    + vm_compute in Hle. lia.
    + destruct Hdelivers as [Hlen _]. vm_compute in Hlen. discriminate.
Qed.

(** C1, amended.  On the success path, after the status placeholder,
    [/deepseek] (threshold 4000) sends the response in one reply when it
    fits the threshold, and otherwise in [ceil(len/threshold)] labelled
    replies whose bodies, label removed and put end to end in the order
    sent, are the response.  [/claude] (threshold 3800) does the same for
    the result's stdout with its leading and trailing whitespace removed,
    the fixed fallback text standing for it when nothing is left; for a
    stdout that neither starts nor ends with whitespace this is the stdout
    itself.  [/fetch] does not split: after its announcement it always
    sends one reply, with the whole content up to 4000 characters and
    otherwise with its first 4000 characters followed by the truncation
    marker. *)
Theorem C1_output_delivered_fetch_cut_stdout_stripped tr svc update context :
  args context <> [] ->
  (responsive tr ->
   forall response,
     query_deepseek svc (join [32%N] (args context)) = Ret response ->
     exists w' replies,
       deepseek_command svc update context (init tr) = (Ret tt, w')
       /\ sent_replies (trace w') = s_ds_thinking :: replies
       /\ delivers 4000 deepseek_single_label deepseek_chunk_label response replies)
  /\ (responsive tr ->
      forall pre r,
        execute_claude_code_with_status svc (join [32%N] (args context))
        = (pre ++ [SUResult r], None) ->
        forallb is_progress pre = true ->
        success r = true ->
        exists w' replies,
          claude_command svc update context (init tr) = (Ret tt, w')
          /\ sent_replies (trace w') = s_cl_starting :: replies
          /\ delivers 3800 claude_single_label (claude_chunk_label (length replies))
               (match strip (stdout r) with
                | [] => s_cl_no_output
                | output => output
                end) replies
          /\ (forall first final,
                head (stdout r) = Some first -> isspace first = false ->
                list.last (stdout r) = Some final -> isspace final = false ->
                delivers 3800 claude_single_label (claude_chunk_label (length replies))
                  (stdout r) replies))
  /\ (reliable tr ->
      forall url rest content,
        args context = url :: rest ->
        fetch_url_content svc url = Ret content ->
        exists w',
          fetch_command svc update context (init tr) = (Ret tt, w')
          /\ sent_replies (trace w')
             = [fetch_announce url;
                fetch_label
                  ++ (if decide (length content <= 4000) then content
                      else take 4000 content ++ nl ++ nl ++ s_truncated)]).
Proof.
  intros Hargs. split; [|split].
  - intros Hresp response Hquery.
    destruct (wp_init _ _ _ (wp_deepseek_command tr svc update context response
                               Hresp Hargs Hquery)) as ([] & w' & Hrun & Hrs & _).
    exists w', (deepseek_final response). split; [done|]. split; [done|].
    rewrite deepseek_final_labelled. apply labelled_chunks_deliver. lia.
  - intros Hresp pre r Hstream Hpre Hok.
    destruct (wp_init _ _ _ (wp_claude_command tr svc update context _
                               Hresp Hargs Hstream)) as ([] & w' & Hrun & Hrs & _).
    rewrite stream_replies in Hrs by done. cbn [update_replies] in Hrs.
    rewrite Hok in Hrs.
    assert (Hdelivers :
      delivers 3800 claude_single_label
        (claude_chunk_label (length (claude_final (claude_output r))))
        (claude_output r) (claude_final (claude_output r))).
    { rewrite claude_final_labelled at 2. apply labelled_chunks_deliver. lia. }
    exists w', (claude_final (claude_output r)). split; [done|]. split; [done|].
    split; [exact Hdelivers|].
    intros first final Hhead Hfirst Hlast Hfinal.
    assert (Hout : claude_output r = stdout r).
    { unfold claude_output.
      rewrite (strip_unpadded _ _ _ Hhead Hfirst Hlast Hfinal).
      by destruct (stdout r). }
    by rewrite Hout in Hdelivers |- *.
  - intros Hrel url rest content Hurl Hfetch.
    destruct (wp_init _ _ _ (wp_fetch_command tr svc update context url rest content
                               Hrel Hurl Hfetch)) as ([] & w' & Hrun & Hrs & _).
    exists w'. split; [done|]. rewrite Hrs. do 2 f_equal.
    unfold fetch_final, fetch_label, fetch_truncate, len, slice.
    rewrite <- !app_assoc. do 3 f_equal.
    destruct (decide (length content <= 4000)) as [Hle|Hgt];
      destruct (Nat.ltb_spec 4000 (length content)); try lia; [done|].
    by rewrite Nat.sub_0_r, drop_0.
Qed.

Lemma C1_witness :
  (exists w' replies,
     deepseek_command long_services a_update some_args (init flaky_transport) = (Ret tt, w')
     /\ sent_replies (trace w') = s_ds_thinking :: replies
     /\ delivers 4000 deepseek_single_label deepseek_chunk_label text_4001 replies)
  /\ (exists w' replies,
        claude_command long_services a_update some_args (init flaky_transport) = (Ret tt, w')
        /\ sent_replies (trace w') = s_cl_starting :: replies
        /\ delivers 3800 claude_single_label (claude_chunk_label (length replies))
             text_3801 replies)
  /\ (exists w',
        fetch_command long_services a_update some_args (init ok_transport) = (Ret tt, w')
        /\ sent_replies (trace w')
           = [fetch_announce (lit "https://example.com");
              fetch_label ++ take 4000 text_4001 ++ nl ++ nl ++ s_truncated]).
Proof.
  destruct (C1_output_delivered_fetch_cut_stdout_stripped flaky_transport long_services
              a_update some_args ltac:(discriminate)) as (Hd & Hc & _).
  destruct (C1_output_delivered_fetch_cut_stdout_stripped ok_transport long_services
              a_update some_args ltac:(discriminate)) as (_ & _ & Hf).
  split; [|split].
  - apply (Hd flaky_responsive). reflexivity.
  - destruct (Hc flaky_responsive [SUStatus (lit "starting"); SUProgress (lit "50%")]
                (MkExecResult text_3801 [] 0 true) eq_refl eq_refl eq_refl)
      as (w' & replies & Hrun & Hrs & _ & Hstdout).
    exists w', replies. split; [done|]. split; [done|].
    apply (Hstdout 98%N 98%N); reflexivity.
  - destruct (Hf ok_reliable (lit "https://example.com") [] text_4001 eq_refl eq_refl)
      as (w' & Hrun & Hrs).
    exists w'. split; [done|]. rewrite Hrs. reflexivity.
Defined.

(** Whatever the transport does, [safe_reply] only ever tries to send its
    text, and the transport accepts it at most once. *)
Lemma safe_reply_trace message text w :
  exists evs,
    trace (safe_reply message text w).2 = trace w ++ evs
    /\ Forall (only_reply text) evs
    /\ length (sent_replies evs) <= 1.
Proof.
  rewrite safe_reply_unfold.
  repeat (rewrite safe_reply_loop_cons;
          cbn [advance transport calls Nat.ltb Nat.leb Nat.sub];
          match goal with
          | |- context [match transport w ?k with _ => _ end] =>
            let e := fresh "e" in
            destruct (transport w k) as [?|e]; [|destruct (is_network_error e)]
          end);
    cbn [snd advance trace]; rewrite <- ?app_assoc;
    (eexists; split; [reflexivity|]; split;
     [repeat constructor | cbn; lia]).
Qed.

(** The usage branch of the handlers that reply through [safe_reply]. *)
Lemma usage_reply_only tr message text :
  let w' := ((safe_reply message text;; mret tt) (init tr)).2 in
  Forall (only_reply text) (trace w')
  /\ length (sent_replies (trace w')) <= 1
  /\ (responsive tr ->
      ((safe_reply message text;; mret tt) (init tr)).1 = Ret tt
      /\ sent_replies (trace w') = [text]
      /\ applied_edits (trace w') = []).
Proof.
  cbv zeta.
  assert (Htrace :
    trace ((safe_reply message text;; mret tt) (init tr)).2
    = trace (safe_reply message text (init tr)).2).
  { cbv [mbind M_bind mret M_ret].
    by destruct (safe_reply message text (init tr)) as [[?|?] ?]. }
  destruct (safe_reply_trace message text (init tr)) as (evs & Hevs & Hall & Hlen).
  rewrite Htrace, Hevs. cbn [init trace app].
  split; [done|]. split; [done|]. intros Hresp.
  assert (Hwp : wp tr (safe_reply message text;; mret tt)
                  (fun _ rs es => rs = [text] /\ es = [])).
  { apply wp_bind. apply wp_safe_reply; [done|]. intros m. by apply wp_ret. }
  destruct (wp_init _ _ _ Hwp) as ([] & w' & Hrun & Hrs & Hes).
  rewrite Hrun in Htrace |- *. cbn [fst snd] in *.
  rewrite Htrace, Hevs in Hrs, Hes. done.
Qed.

(** C8.  With no arguments each of [/fetch], [/deepseek] and [/claude]
    only ever tries to send its usage text: whatever the transport does,
    the trace holds nothing but attempts at that reply (no placeholder,
    no edit) and at most one is accepted; when the transport accepts the
    call ([/fetch] sends directly) or is responsive (the other two
    retry), the handler returns with exactly one reply sent, the usage
    text, and no edit. *)
Theorem C8_no_arguments_one_usage_reply tr svc update context :
  args context = [] ->
  (let w' := (fetch_command svc update context (init tr)).2 in
   Forall (only_reply fetch_usage) (trace w')
   /\ length (sent_replies (trace w')) <= 1
   /\ (delivered (tr 0) = true ->
       (fetch_command svc update context (init tr)).1 = Ret tt
       /\ sent_replies (trace w') = [fetch_usage]
       /\ applied_edits (trace w') = []))
  /\ (let w' := (deepseek_command svc update context (init tr)).2 in
      Forall (only_reply deepseek_usage) (trace w')
      /\ length (sent_replies (trace w')) <= 1
      /\ (responsive tr ->
          (deepseek_command svc update context (init tr)).1 = Ret tt
          /\ sent_replies (trace w') = [deepseek_usage]
          /\ applied_edits (trace w') = []))
  /\ (let w' := (claude_command svc update context (init tr)).2 in
      Forall (only_reply claude_usage) (trace w')
      /\ length (sent_replies (trace w')) <= 1
      /\ (responsive tr ->
          (claude_command svc update context (init tr)).1 = Ret tt
          /\ sent_replies (trace w') = [claude_usage]
          /\ applied_edits (trace w') = [])).
Proof.
  intros Hargs. split; [|split].
  - unfold fetch_command. rewrite Hargs.
    cbv [mbind M_bind mret M_ret reply_text init]. cbn [transport calls trace].
    destruct (tr 0) as [m|e]; cbn; (split; [by repeat constructor|]);
      (split; [lia|]); [done|discriminate].
  - unfold deepseek_command. rewrite Hargs. apply usage_reply_only.
  - unfold claude_command. rewrite Hargs. apply usage_reply_only.
Qed.

Lemma C8_witness :
  ((fetch_command long_services a_update no_args (init ok_transport)).1 = Ret tt
   /\ sent_replies (trace (fetch_command long_services a_update no_args
                             (init ok_transport)).2) = [fetch_usage])
  /\ ((deepseek_command long_services a_update no_args (init flaky_transport)).1 = Ret tt
      /\ sent_replies (trace (deepseek_command long_services a_update no_args
                                (init flaky_transport)).2) = [deepseek_usage])
  /\ ((claude_command long_services a_update no_args (init flaky_transport)).1 = Ret tt
      /\ sent_replies (trace (claude_command long_services a_update no_args
                                (init flaky_transport)).2) = [claude_usage]).
Proof.
  destruct (C8_no_arguments_one_usage_reply ok_transport long_services a_update no_args
              eq_refl) as ((_ & _ & Hf) & _).
  destruct (C8_no_arguments_one_usage_reply flaky_transport long_services a_update no_args
              eq_refl) as (_ & (_ & _ & Hd) & (_ & _ & Hc)).
  split; [|split].
  - destruct (Hf eq_refl) as (? & ? & _). by split.
  - destruct (Hd flaky_responsive) as (? & ? & _). by split.
  - destruct (Hc flaky_responsive) as (? & ? & _). by split.
Defined.

(** C10.  On the success path of [/claude], when the result's stdout is
    empty or holds only whitespace, the handler sends, after the status
    placeholder, exactly one reply: the fixed fallback text under the
    output label. *)
Theorem C10_blank_stdout_sends_fallback tr svc update context pre r :
  responsive tr ->
  args context <> [] ->
  execute_claude_code_with_status svc (join [32%N] (args context))
  = (pre ++ [SUResult r], None) ->
  forallb is_progress pre = true ->
  success r = true ->
  Forall (fun c => isspace c = true) (stdout r) ->
  exists w',
    claude_command svc update context (init tr) = (Ret tt, w')
    /\ sent_replies (trace w') = [s_cl_starting; claude_single_label ++ s_cl_no_output].
Proof.
  intros Hresp Hargs Hstream Hpre Hok Hblank.
  destruct (wp_init _ _ _ (wp_claude_command tr svc update context _
                             Hresp Hargs Hstream)) as ([] & w' & Hrun & Hrs & _).
  exists w'. split; [done|].
  rewrite Hrs, stream_replies by done. cbn [update_replies]. rewrite Hok.
  unfold claude_output. by rewrite strip_spaces.
Qed.

Lemma C10_witness :
  exists w',
    claude_command blank_services a_update some_args (init flaky_transport) = (Ret tt, w')
    /\ sent_replies (trace w') = [s_cl_starting; claude_single_label ++ s_cl_no_output].
Proof.
  apply (C10_blank_stdout_sends_fallback flaky_transport blank_services a_update some_args
           [SUStatus (lit "starting")] (MkExecResult [32%N; 10%N; 9%N] [] 0 true)
           flaky_responsive ltac:(discriminate) eq_refl eq_refl eq_refl).
  repeat constructor.
Defined.

(** C2, as stated, fails for [/fetch]: a content of 4001 characters is
    not split; one reply follows the placeholder where the pieces of size
    4000 are two. *)
Lemma C2_fetch_sends_one_truncated_reply :
  let w' := (fetch_command long_services a_update some_args (init ok_transport)).2 in
  4000 < length text_4001
  /\ length (chunks_of text_4001 4000) = 2
  /\ drop 1 (sent_replies (trace w'))
     = [fetch_label ++ take 4000 text_4001 ++ nl ++ nl ++ s_truncated]
  /\ ~ exists single_label chunk_label,
         chunked 4000 single_label chunk_label text_4001 (drop 1 (sent_replies (trace w'))).
Proof.
  cbv zeta. split; [vm_compute; lia|]. split; [by vm_compute|]. split; [by vm_compute|].
  intros (single_label & chunk_label & Hchunked). unfold chunked in Hchunked.
  destruct (decide (length text_4001 <= 4000)) as [Hle|_].
  - vm_compute in Hle. lia.
  - destruct Hchunked as [Hlen _]. vm_compute in Hlen. discriminate.
Qed.

(** C2, amended.  On the success path [/deepseek] (threshold 4000) and
    [/claude] (threshold 3800) send, after the status placeholder, the
    whole output in one reply when it fits the threshold and otherwise
    one labelled reply per consecutive piece of the threshold's size, in
    the original order; [/fetch] sends one reply in either case: the
    content as it is up to 4000 characters, and above that its first 4000
    characters followed by the truncation marker. *)
Theorem C2_chunked_replies_fetch_truncates tr svc update context :
  args context <> [] ->
  (responsive tr ->
   forall response,
     query_deepseek svc (join [32%N] (args context)) = Ret response ->
     exists w' replies,
       deepseek_command svc update context (init tr) = (Ret tt, w')
       /\ sent_replies (trace w') = s_ds_thinking :: replies
       /\ chunked 4000 deepseek_single_label deepseek_chunk_label response replies)
  /\ (responsive tr ->
      forall pre r,
        execute_claude_code_with_status svc (join [32%N] (args context))
        = (pre ++ [SUResult r], None) ->
        forallb is_progress pre = true ->
        success r = true ->
        exists w' replies,
          claude_command svc update context (init tr) = (Ret tt, w')
          /\ sent_replies (trace w') = s_cl_starting :: replies
          /\ chunked 3800 claude_single_label (claude_chunk_label (length replies))
               (claude_output r) replies)
  /\ (reliable tr ->
      forall url rest content,
        args context = url :: rest ->
        fetch_url_content svc url = Ret content ->
        exists w',
          fetch_command svc update context (init tr) = (Ret tt, w')
          /\ sent_replies (trace w')
             = [fetch_announce url;
                fetch_label
                  ++ (if decide (length content <= 4000) then content
                      else take 4000 content ++ nl ++ nl ++ s_truncated)]).
Proof.
  intros Hargs. split; [|split].
  - intros Hresp response Hquery.
    destruct (wp_init _ _ _ (wp_deepseek_command tr svc update context response
                               Hresp Hargs Hquery)) as ([] & w' & Hrun & Hrs & _).
    exists w', (deepseek_final response). split; [done|]. split; [done|].
    rewrite deepseek_final_labelled. apply labelled_chunks_chunked. lia.
  - intros Hresp pre r Hstream Hpre Hok.
    destruct (wp_init _ _ _ (wp_claude_command tr svc update context _
                               Hresp Hargs Hstream)) as ([] & w' & Hrun & Hrs & _).
    rewrite stream_replies in Hrs by done. cbn [update_replies] in Hrs.
    rewrite Hok in Hrs.
    exists w', (claude_final (claude_output r)). split; [done|]. split; [done|].
    rewrite claude_final_labelled at 2. apply labelled_chunks_chunked. lia.
  - intros Hrel url rest content Hurl Hfetch.
    destruct (wp_init _ _ _ (wp_fetch_command tr svc update context url rest content
                               Hrel Hurl Hfetch)) as ([] & w' & Hrun & Hrs & _).
    exists w'. split; [done|]. rewrite Hrs. do 2 f_equal.
    unfold fetch_final, fetch_label, fetch_truncate, len, slice.
    rewrite <- !app_assoc. do 3 f_equal.
    destruct (decide (length content <= 4000)) as [Hle|Hgt];
      destruct (Nat.ltb_spec 4000 (length content)); try lia; [done|].
    by rewrite Nat.sub_0_r, drop_0.
Qed.

Lemma C2_witness :
  (exists w' replies,
     deepseek_command long_services a_update some_args (init flaky_transport) = (Ret tt, w')
     /\ sent_replies (trace w') = s_ds_thinking :: replies
     /\ chunked 4000 deepseek_single_label deepseek_chunk_label text_4001 replies)
  /\ (exists w' replies,
        claude_command long_services a_update some_args (init flaky_transport) = (Ret tt, w')
        /\ sent_replies (trace w') = s_cl_starting :: replies
        /\ chunked 3800 claude_single_label (claude_chunk_label (length replies))
             (claude_output (MkExecResult text_3801 [] 0 true)) replies)
  /\ (exists w',
        fetch_command long_services a_update some_args (init ok_transport) = (Ret tt, w')
        /\ sent_replies (trace w')
           = [fetch_announce (lit "https://example.com");
              fetch_label
                ++ (if decide (length text_4001 <= 4000) then text_4001
                    else take 4000 text_4001 ++ nl ++ nl ++ s_truncated)]).
Proof.
  destruct (C2_chunked_replies_fetch_truncates flaky_transport long_services a_update
              some_args ltac:(discriminate)) as (Hd & Hc & _).
  destruct (C2_chunked_replies_fetch_truncates ok_transport long_services a_update
              some_args ltac:(discriminate)) as (_ & _ & Hf).
  split; [|split].
  - apply (Hd flaky_responsive). reflexivity.
  - apply (Hc flaky_responsive [SUStatus (lit "starting"); SUProgress (lit "50%")]);
      reflexivity.
  - apply (Hf ok_reliable (lit "https://example.com") []); reflexivity.
Defined.

(** C3, as stated, fails: an error of the transport that is neither
    [NetworkError] nor [TimedOut] leaves [safe_edit] through its single
    [except] clause, after one attempt. *)
Lemma C3_safe_edit_raises_when_blocked :
  let run := safe_edit a_status (lit "working") (init blocked_transport) in
  run.1 = Raise (MkExn TelegramError (lit "Forbidden: bot was blocked by the user"))
  /\ attempts (trace run.2) = 1.
Proof. cbv zeta. split; by vm_compute. Qed.

(** C3, amended.  [safe_edit] does not raise as long as the transport
    fails only with [NetworkError] or [TimedOut]; when it fails so on
    every attempt, [safe_edit] makes exactly 3 attempts, waits 1 and 2
    time units after the first and the second, and returns [None].  An
    error of the transport that is neither is not caught: [safe_edit]
    raises it at the attempt where it occurs, the first or one reached
    after transient failures and their waits, and makes no further
    attempt. *)
Theorem C3_safe_edit_swallows_network_errors w message text :
  ((forall k e, transport w k = Raise e -> is_network_error e = true) ->
   exists r w', safe_edit message text w = (Ret r, w'))
  /\ ((forall j, j < 3 -> transient (transport w (calls w + j)) = true) ->
      exists w',
        safe_edit message text w = (Ret None, w')
        /\ trace w'
           = trace w
               ++ [EvEdit message text (transport w (calls w)); EvSleep 1;
                   EvEdit message text (transport w (S (calls w))); EvSleep 2;
                   EvEdit message text (transport w (S (S (calls w))))]
        /\ attempts (trace w') = attempts (trace w) + 3
        /\ sleeps (trace w') = sleeps (trace w) ++ [1; 2])
  /\ (forall k e,
        k < 3 ->
        (forall j, j < k -> transient (transport w (calls w + j)) = true) ->
        transport w (calls w + k) = Raise e ->
        is_network_error e = false ->
        exists w',
          safe_edit message text w = (Raise e, w')
          /\ attempts (trace w') = attempts (trace w) + S k
          /\ sleeps (trace w') = sleeps (trace w) ++ take k [1; 2]
          /\ applied_edits (trace w') = applied_edits (trace w)).
Proof.
  split; [|split].
  - intros Hnet. rewrite safe_edit_unfold.
    repeat (rewrite safe_edit_loop_cons;
            cbn [advance transport calls Nat.ltb Nat.leb Nat.sub];
            match goal with
            | |- context [match transport w ?k with _ => _ end] =>
              let e := fresh "e" in let He := fresh "He" in
              destruct (transport w k) as [?|e] eqn:He;
              [by eexists _, _ | rewrite (Hnet _ _ He)]
            end).
    by eexists _, _.
  - intros Hdown.
    pose proof (Hdown 0 ltac:(lia)) as H0.
    pose proof (Hdown 1 ltac:(lia)) as H1.
    pose proof (Hdown 2 ltac:(lia)) as H2.
    rewrite Nat.add_0_r in H0.
    replace (calls w + 1) with (S (calls w)) in H1 by lia.
    replace (calls w + 2) with (S (S (calls w))) in H2 by lia.
    rewrite safe_edit_unfold.
    rewrite safe_edit_loop_cons. cbn [advance transport calls Nat.ltb Nat.leb Nat.sub].
    destruct (transport w (calls w)) as [?|e0]; [done|]. cbn [transient] in H0. rewrite H0.
    rewrite safe_edit_loop_cons. cbn [advance transport calls Nat.ltb Nat.leb Nat.sub].
    destruct (transport w (S (calls w))) as [?|e1]; [done|]. cbn [transient] in H1. rewrite H1.
    rewrite safe_edit_loop_cons. cbn [advance transport calls Nat.ltb Nat.leb Nat.sub].
    destruct (transport w (S (S (calls w)))) as [?|e2]; [done|]. cbn [transient] in H2.
    rewrite H2.
    eexists. split; [reflexivity|]. cbn [advance trace]. rewrite <- !app_assoc.
    split; [done|]. rewrite attempts_app, sleeps_app. done.
  - intros k e Hk Hbefore Hcall Hother. rewrite safe_edit_unfold.
    destruct k as [|[|[|k]]]; [| | |lia].
    + rewrite Nat.add_0_r in Hcall.
      rewrite safe_edit_loop_cons, Hcall, Hother.
      eexists. split; [reflexivity|]. cbn [advance trace].
      rewrite attempts_app, sleeps_app, applied_edits_app. cbn.
      by rewrite !app_nil_r.
    + pose proof (Hbefore 0 ltac:(lia)) as H0. rewrite Nat.add_0_r in H0.
      replace (calls w + 1) with (S (calls w)) in Hcall by lia.
      rewrite safe_edit_loop_cons.
      destruct (transport w (calls w)) as [?|e0]; [done|]. cbn [transient] in H0.
      rewrite H0. cbn [Nat.ltb Nat.leb Nat.sub].
      rewrite safe_edit_loop_cons. cbn [advance transport calls].
      rewrite Hcall, Hother.
      eexists. split; [reflexivity|]. cbn [advance trace]. rewrite <- !app_assoc.
      rewrite attempts_app, sleeps_app, applied_edits_app. cbn.
      by rewrite !app_nil_r.
    + pose proof (Hbefore 0 ltac:(lia)) as H0. rewrite Nat.add_0_r in H0.
      pose proof (Hbefore 1 ltac:(lia)) as H1.
      replace (calls w + 1) with (S (calls w)) in H1 by lia.
      replace (calls w + 2) with (S (S (calls w))) in Hcall by lia.
      rewrite safe_edit_loop_cons.
      destruct (transport w (calls w)) as [?|e0]; [done|]. cbn [transient] in H0.
      rewrite H0. cbn [Nat.ltb Nat.leb Nat.sub].
      rewrite safe_edit_loop_cons. cbn [advance transport calls].
      destruct (transport w (S (calls w))) as [?|e1]; [done|]. cbn [transient] in H1.
      rewrite H1. cbn [Nat.ltb Nat.leb Nat.sub].
      rewrite safe_edit_loop_cons. cbn [advance transport calls].
      rewrite Hcall, Hother.
      eexists. split; [reflexivity|]. cbn [advance trace]. rewrite <- !app_assoc.
      rewrite attempts_app, sleeps_app, applied_edits_app. cbn.
      by rewrite !app_nil_r.
Qed.

Lemma C3_witness :
  (exists r w', safe_edit a_status (lit "working") (init flaky_transport) = (Ret r, w'))
  /\ (exists w',
        safe_edit a_status (lit "working") (init down_transport) = (Ret None, w')
        /\ attempts (trace w') = 3
        /\ sleeps (trace w') = [1; 2])
  /\ (exists w',
        safe_edit a_status (lit "working") (init timeout_then_blocked_transport)
        = (Raise (MkExn TelegramError (lit "Forbidden: bot was blocked by the user")), w')
        /\ attempts (trace w') = 2
        /\ sleeps (trace w') = [1]).
Proof.
  destruct (C3_safe_edit_swallows_network_errors (init flaky_transport) a_status
              (lit "working")) as (Hflaky & _ & _).
  destruct (C3_safe_edit_swallows_network_errors (init down_transport) a_status
              (lit "working")) as (_ & Hdown & _).
  destruct (C3_safe_edit_swallows_network_errors (init timeout_then_blocked_transport)
              a_status (lit "working")) as (_ & _ & Hblocked).
  split; [|split].
  - apply Hflaky. intros k e. cbn. unfold flaky_transport.
    destruct (Nat.even k); [|discriminate]. by intros [= <-].
  - destruct Hdown as (w' & Hrun & _ & Hattempts & Hsleeps); [by intros j _|].
    exists w'. by split.
  - destruct (Hblocked 1 (MkExn TelegramError (lit "Forbidden: bot was blocked by the user")))
      as (w' & Hrun & Hattempts & Hsleeps & _); [lia| |reflexivity|reflexivity|].
    + intros [|j] Hj; [reflexivity|lia].
    + exists w'. by split.
Defined.

(** C4.  When the transport fails with [NetworkError] or [TimedOut] on
    the first and the second attempt and succeeds on the third,
    [safe_reply] and [safe_edit] make 3 attempts, wait exactly twice, 1
    then 2 time units, and return the message of the transport, which is
    what they return when the first attempt succeeds with it. *)
Theorem C4_success_on_third_attempt w message text e1 e2 m :
  transport w (calls w) = Raise e1 -> is_network_error e1 = true ->
  transport w (S (calls w)) = Raise e2 -> is_network_error e2 = true ->
  transport w (S (S (calls w))) = Ret m ->
  (exists w',
     safe_reply message text w = (Ret (Some m), w')
     /\ sleeps (trace w') = sleeps (trace w) ++ [1; 2]
     /\ attempts (trace w') = attempts (trace w) + 3
     /\ sent_replies (trace w') = sent_replies (trace w) ++ [text])
  /\ (exists w',
        safe_edit message text w = (Ret (Some m), w')
        /\ sleeps (trace w') = sleeps (trace w) ++ [1; 2]
        /\ attempts (trace w') = attempts (trace w) + 3
        /\ applied_edits (trace w') = applied_edits (trace w) ++ [(message, text)])
  /\ (forall w0,
        transport w0 (calls w0) = Ret m ->
        (safe_reply message text w0).1 = Ret (Some m)
        /\ (safe_edit message text w0).1 = Ret (Some m)
        /\ sleeps (trace (safe_reply message text w0).2) = sleeps (trace w0)
        /\ sleeps (trace (safe_edit message text w0).2) = sleeps (trace w0)).
Proof.
  intros H1 Hn1 H2 Hn2 H3. split; [|split].
  - rewrite safe_reply_unfold.
    rewrite safe_reply_loop_cons, H1, Hn1.
    cbn [Nat.ltb Nat.leb Nat.sub].
    rewrite safe_reply_loop_cons. cbn [advance transport calls]. rewrite H2, Hn2.
    cbn [Nat.ltb Nat.leb Nat.sub].
    rewrite safe_reply_loop_cons. cbn [advance transport calls]. rewrite H3.
    eexists. split; [reflexivity|]. cbn [advance trace]. rewrite <- !app_assoc.
    by rewrite sleeps_app, attempts_app, sent_replies_app.
  - rewrite safe_edit_unfold.
    rewrite safe_edit_loop_cons, H1, Hn1.
    cbn [Nat.ltb Nat.leb Nat.sub].
    rewrite safe_edit_loop_cons. cbn [advance transport calls]. rewrite H2, Hn2.
    cbn [Nat.ltb Nat.leb Nat.sub].
    rewrite safe_edit_loop_cons. cbn [advance transport calls]. rewrite H3.
    eexists. split; [reflexivity|]. cbn [advance trace]. rewrite <- !app_assoc.
    by rewrite sleeps_app, attempts_app, applied_edits_app.
  - intros w0 H0.
    rewrite safe_reply_unfold, safe_edit_unfold, safe_reply_loop_cons,
      safe_edit_loop_cons, H0.
    cbn [fst snd advance trace]. rewrite !sleeps_app. cbn. by rewrite app_nil_r.
Qed.

Lemma C4_witness :
  (exists w',
     safe_reply (message a_update) (lit "hello") (init third_time_transport)
     = (Ret (Some (MkMessage 7)), w')
     /\ sleeps (trace w') = [1; 2]
     /\ attempts (trace w') = 3)
  /\ (exists w',
        safe_edit a_status (lit "hello") (init third_time_transport)
        = (Ret (Some (MkMessage 7)), w')
        /\ sleeps (trace w') = [1; 2]
        /\ attempts (trace w') = 3).
Proof.
  destruct (C4_success_on_third_attempt (init third_time_transport) (message a_update)
              (lit "hello") (MkExn TimedOut (lit "Timed out"))
              (MkExn TimedOut (lit "Timed out")) (MkMessage 7)
              eq_refl eq_refl eq_refl eq_refl eq_refl)
    as ((w1 & Hrun1 & Hs1 & Ha1 & _) & _ & _).
  destruct (C4_success_on_third_attempt (init third_time_transport) a_status
              (lit "hello") (MkExn TimedOut (lit "Timed out"))
              (MkExn TimedOut (lit "Timed out")) (MkMessage 7)
              eq_refl eq_refl eq_refl eq_refl eq_refl)
    as (_ & (w2 & Hrun2 & Hs2 & Ha2 & _) & _).
  split; [by exists w1 | by exists w2].
Defined.

End CommandClaims.

(** ** Claims on the code-execution adapter *)

Section ClaudeCodeClaims.
Import Py Eff ClaudeCode ClaudeCodeProps Examples.
Implicit Types (env : Env) (cfg : Config) (data : list (list N * value))
  (logs : list (level * list N)).

Lemma join_values_from_strs (strs : list (list N)) : forall i,
  join_values_from i (map VStr strs) = Ret strs.
Proof.
  induction strs as [|t strs IH]; intros i; [done|].
  cbn [map join_values_from]. rewrite IH. done.
Qed.

Lemma join_values_strs sep (strs : list (list N)) :
  join_values sep (map VStr strs) = Ret (join sep strs).
Proof. unfold join_values. by rewrite join_values_from_strs. Qed.

(** Over readable dict blocks the loop never raises and appends each
    block's part. *)
Lemma collect_parts_blocks env (blocks : list (list (list N * value))) :
  Forall readable blocks ->
  forall acc,
    collect_parts env (map VDict blocks) (map VStr acc)
    = Ret (map VStr (acc ++ flat_map (block_part env) blocks)).
Proof.
  induction 1 as [|d blocks Hd _ IH]; intros acc.
  - cbn. by rewrite app_nil_r.
  - cbn [map collect_parts flat_map]. unfold block_part at 1.
    cbn [value_get mbind result_bind]. change (get_default d s_type VNone) with (get d s_type).
    destruct (eq_str (get d s_type) s_text) eqn:Htext.
    + destruct (Hd Htext) as [t Ht]. rewrite Ht.
      change [VStr t] with (map VStr [t]). rewrite <- map_app, IH.
      by rewrite <- app_assoc.
    + destruct (eq_str (get d s_type) s_tool_use).
      * destruct (truthy (get_default d s_content (VStr []))).
        -- match goal with
           | |- context [map VStr acc ++ [VStr ?t]] =>
             change [VStr t] with (map VStr [t])
           end.
           rewrite <- map_app, IH. by rewrite <- app_assoc.
        -- by rewrite IH.
      * by rewrite IH.
Qed.

Lemma collect_parts_from_nil env (blocks : list (list (list N * value))) :
  Forall readable blocks ->
  collect_parts env (map VDict blocks) []
  = Ret (map VStr (flat_map (block_part env) blocks)).
Proof. intros Hread. apply (collect_parts_blocks env blocks Hread []). Qed.

(** C6, as stated, fails: a response whose "content" is an empty list
    has no "text" or "tool_use" block, and the extraction returns "No
    response content", not "Operation completed". *)
Lemma C6_empty_content_is_no_response_content :
  let env := env_answering ok_response in
  (_extract_result_from_response env empty_content_data []).1 = Ret s_no_response_content
  /\ spec_extract env empty_content_data = s_operation_completed
  /\ Ret (spec_extract env empty_content_data)
     <> (_extract_result_from_response env empty_content_data []).1.
Proof. cbv zeta. split; [by vm_compute|]. split; [by vm_compute|]. by vm_compute. Qed.

(** C6, amended.  For a response dict whose "content" is absent or an
    empty list the extraction returns "No response content".  For one
    whose "content" is a non-empty list of dict blocks, every "text"
    block's text being a [str] when present, it returns the
    newline-joined texts of the "text" blocks and stringified payloads of
    the "tool_use" blocks whose payload is truthy, in response order, and
    "Operation completed" when there is no such part. *)
Theorem C6_extract_joins_block_parts env data logs :
  (dict_get data s_content = None \/ dict_get data s_content = Some (VList []) ->
   _extract_result_from_response env data logs = (Ret s_no_response_content, logs))
  /\ (forall blocks,
        dict_get data s_content = Some (VList (map VDict blocks)) ->
        blocks <> [] ->
        Forall readable blocks ->
        _extract_result_from_response env data logs
        = (Ret (match flat_map (block_part env) blocks with
                | [] => s_operation_completed
                | parts => join nl parts
                end), logs)).
Proof.
  unfold _extract_result_from_response, try_except, lift, extract_body, contains, get.
  split.
  - intros [-> | ->]; done.
  - intros blocks -> Hne Hread.
    destruct blocks as [|d blocks]; [done|].
    cbv [default from_option id].
    cbn [value_len value_iter mbind result_bind length map Nat.ltb Nat.leb].
    change (VDict d :: map VDict blocks) with (map VDict (d :: blocks)).
    rewrite (collect_parts_from_nil env _ Hread).
    destruct (flat_map (block_part env) (d :: blocks)) as [|part parts]; [done|].
    cbn [map mbind result_bind].
    change (VStr part :: map VStr parts) with (map VStr (part :: parts)).
    by rewrite join_values_strs.
Qed.

Lemma C6_witness :
  _extract_result_from_response (env_answering ok_response) empty_content_data []
  = (Ret s_no_response_content, [])
  /\ _extract_result_from_response (env_answering ok_response) done_data []
     = (Ret (lit "done"), []).
Proof.
  destruct (C6_extract_joins_block_parts (env_answering ok_response) empty_content_data [])
    as [Hempty _].
  destruct (C6_extract_joins_block_parts (env_answering ok_response) done_data [])
    as [_ Hdone].
  split.
  - apply Hempty. by right.
  - apply (Hdone [[(lit "type", VStr (lit "text")); (lit "text", VStr (lit "done"))]]).
    + reflexivity.
    + discriminate.
    + repeat constructor. intros _. by eexists.
Defined.

(** The extraction never raises, and its text does not depend on what was
    logged before. *)
Lemma extract_returns env data :
  exists out, forall logs,
    exists logs', _extract_result_from_response env data logs = (Ret out, logs').
Proof.
  unfold _extract_result_from_response, try_except, lift.
  destruct (extract_body env data) as [out|e]; eexists; intros logs; by eexists.
Qed.

(** C5, as stated, fails: 201 is a 2xx status, and the adapter raises the
    status error for it. *)
Lemma C5_status_201_raises :
  (200 <= status created_response < 300)%Z
  /\ (execute_claude_code a_config (env_answering created_response) (lit "ls") None []).1
     = Raise (MkExn Exception (api_status_message 201 (text created_response))).
Proof. split; [by vm_compute|by vm_compute]. Qed.

(** C5, amended.  Once the key is configured and the endpoint has
    answered, the adapter raises the error carrying the HTTP status and
    the response body if and only if the status is not 200; on status 200
    with a JSON body it returns the record built from the extracted
    text. *)
Theorem C5_raises_status_error_iff_not_200 cfg env operation timeout key resp logs :
  api_key_of cfg = Some key ->
  post env (MkRequest (default (CLAUDE_TIMEOUT cfg) timeout) (CLAUDE_API_URL cfg)
              (headers key) (payload cfg operation)) = Ret resp ->
  let run := (execute_claude_code cfg env operation timeout logs).1 in
  (status resp <> 200%Z ->
   run = Raise (MkExn Exception (api_status_message (status resp) (text resp))))
  /\ (status resp = 200%Z ->
      forall data, json resp = Ret data ->
      exists out,
        (_extract_result_from_response env data []).1 = Ret out
        /\ run = Ret {| stdout := out; stderr := []; return_code := 0; success := true |})
  /\ (forall data, json resp = Ret data ->
      (run = Raise (MkExn Exception (api_status_message (status resp) (text resp)))
       <-> status resp <> 200%Z)).
Proof.
  intros Hkey Hpost run.
  assert (Herr : status resp <> 200%Z ->
            run = Raise (MkExn Exception (api_status_message (status resp) (text resp)))).
  { intros Hstatus. unfold run, execute_claude_code. rewrite Hkey.
    cbv [mbind M_bind mret M_ret try_except lift log raise].
    destruct timeout as [t|]; cbv [default from_option id] in Hpost; rewrite Hpost;
      (destruct (Z.eqb_spec (status resp) 200); [done|]); done. }
  assert (Hok : status resp = 200%Z ->
            forall data, json resp = Ret data ->
            exists out,
              (_extract_result_from_response env data []).1 = Ret out
              /\ run = Ret {| stdout := out; stderr := []; return_code := 0;
                              success := true |}).
  { intros Hstatus data Hjson. unfold run, execute_claude_code. rewrite Hkey.
    cbv [mbind M_bind mret M_ret try_except lift log raise].
    destruct timeout as [t|]; cbv [default from_option id] in Hpost; rewrite Hpost, Hstatus, Hjson;
      cbn [Z.eqb Pos.eqb negb];
      destruct (extract_returns env data) as [out Hout];
      destruct (Hout []) as [logs0 ->];
      match goal with
      | |- context [_extract_result_from_response env data (?l ++ ?l')] =>
        destruct (Hout (l ++ l')) as [logs1 ->]
      end; by exists out. }
  split; [done|]. split; [done|].
  intros data Hjson. split; [|done].
  intros Hraise Hstatus. destruct (Hok Hstatus data Hjson) as (out & _ & Hret).
  congruence.
Qed.

Lemma C5_witness :
  (execute_claude_code a_config (env_answering created_response) (lit "ls") None []).1
  = Raise (MkExn Exception (api_status_message 201 (text created_response)))
  /\ exists out,
       (execute_claude_code a_config (env_answering ok_response) (lit "ls") None []).1
       = Ret {| stdout := out; stderr := []; return_code := 0; success := true |}.
Proof.
  destruct (C5_raises_status_error_iff_not_200 a_config (env_answering created_response)
              (lit "ls") None (lit "sk-test") created_response [] eq_refl eq_refl)
    as (Hraise & _ & _).
  destruct (C5_raises_status_error_iff_not_200 a_config (env_answering ok_response)
              (lit "ls") None (lit "sk-test") ok_response [] eq_refl eq_refl)
    as (_ & Hret & _).
  split.
  - apply Hraise. discriminate.
  - destruct (Hret eq_refl done_data eq_refl) as (out & _ & Hrun). by exists out.
Defined.

(** C7.  Whenever the adapter returns, the record it returns has
    [success] true, [return_code] 0 and an empty [stderr]. *)
Theorem C7_return_reports_success cfg env operation timeout logs r logs' :
  execute_claude_code cfg env operation timeout logs = (Ret r, logs') ->
  success r = true /\ return_code r = 0%Z /\ stderr r = [].
Proof.
  unfold execute_claude_code.
  destruct (api_key_of cfg) as [key|]; [|discriminate].
  cbv [mbind M_bind mret M_ret try_except lift log raise].
  destruct (post env _) as [resp|e].
  - destruct (negb (status resp =? 200)%Z).
    + destruct (is_client_error _); discriminate.
    + destruct (json resp) as [data|e].
      * destruct (extract_returns env data) as [out Hout].
        match goal with
        | |- context [_extract_result_from_response env data ?l] =>
          destruct (Hout l) as [logs1 ->]
        end.
        by intros [= <- _].
      * destruct (is_client_error e); discriminate.
  - destruct (is_client_error e); discriminate.
Qed.

Lemma C7_witness :
  exists r logs',
    execute_claude_code a_config (env_answering ok_response) (lit "ls") None []
    = (Ret r, logs')
    /\ success r = true /\ return_code r = 0%Z /\ stderr r = [].
Proof.
  eexists _, _. split; [vm_compute; reflexivity|].
  apply (C7_return_reports_success a_config (env_answering ok_response) (lit "ls") None []
           _ _ eq_refl).
Defined.

End ClaudeCodeClaims.

(** ** Claims on the tool facade *)

Section McpServerClaims.
Import Py Eff McpServer McpServerProps Examples.
Implicit Types (env : Env) (w : world) (arguments : value).

Lemma get_bot_the_bot env w b :
  the_bot env w = Some b -> exists w', get_bot env w = (Ret b, w').
Proof.
  unfold the_bot, get_bot. destruct (bot w) as [b'|].
  - intros [= ->]. by eexists.
  - destruct (TELEGRAM_BOT_TOKEN env) as [[|c t]|]; [done| |done].
    intros [= <-]. by eexists.
Qed.

Lemma bind_returns {S A B} (m : Eff.M S A) (f : A -> Eff.M S B) (s s' : S) b :
  (m ≫= f) s = (Ret b, s') ->
  exists a s1, m s = (Ret a, s1) /\ f a s1 = (Ret b, s').
Proof.
  unfold mbind, M_bind. destruct (m s) as [[a|e] s1]; [|discriminate].
  intros Hf. by exists a, s1.
Qed.

(** An [except TelegramError] clause around a body of one-text results
    gives one-text results. *)
Lemma except_telegram_error_singleton (body : McpServer.M (list TextContent)) :
  (forall w l w', body w = (Ret l, w') -> exists t, l = [text_content t]) ->
  forall w l w',
    except_telegram_error body w = (Ret l, w') -> exists t, l = [text_content t].
Proof.
  intros Hbody w l w'. unfold except_telegram_error, try_except.
  destruct (body w) as [[l0|e] w0] eqn:Hrun.
  - intros [= <- <-]. by eapply Hbody.
  - destruct (is_telegram_error e); [|discriminate].
    intros [= <- _]. by eexists.
Qed.

(** What [send_message] returns, when it returns, is one text item. *)
Lemma send_message_singleton env arguments w l w' :
  send_message env arguments w = (Ret l, w') -> exists t, l = [text_content t].
Proof.
  unfold send_message.
  intros (chat & w1 & _ & (text & w2 & _ & Hrest)%bind_returns)%bind_returns.
  destruct (negb (truthy chat) || negb (truthy text)).
  - injection Hrest as <- _. by eexists.
  - revert Hrest. apply except_telegram_error_singleton. clear.
    intros w l w' (b & w1 & _ & (m & w2 & _ & Hret)%bind_returns)%bind_returns.
    injection Hret as <- _. by eexists.
Qed.

(** What [get_updates] returns, when it returns, is one text item. *)
Lemma get_updates_singleton env arguments w l w' :
  get_updates env arguments w = (Ret l, w') -> exists t, l = [text_content t].
Proof.
  unfold get_updates.
  intros (limit & w1 & _ & Hrest)%bind_returns.
  revert Hrest. apply except_telegram_error_singleton. clear.
  intros w l w' (b & w1 & _ & (updates & w2 & _ & Hret)%bind_returns)%bind_returns.
  destruct updates as [|u updates].
  - injection Hret as <- _. by eexists.
  - do 3 apply bind_returns in Hret as (? & ? & _ & Hret).
    injection Hret as <- _. by eexists.
Qed.

Lemma dispatch_singleton env name arguments w l w' :
  dispatch env name arguments w = (Ret l, w') -> exists t, l = [text_content t].
Proof.
  unfold dispatch.
  destruct (str_eqb name s_send_telegram_message); [apply send_message_singleton|].
  destruct (str_eqb name s_get_telegram_updates); [|discriminate].
  destruct (get_updates_bound env); [apply get_updates_singleton|discriminate].
Qed.

Lemma str_eqb_refl (a : list N) : str_eqb a a = true.
Proof. unfold str_eqb. by apply bool_decide_eq_true_2. Qed.

Lemma call_tool_send env arguments w :
  call_tool env s_send_telegram_message arguments w
  = try_except (send_message env arguments)
      (fun e =>
         log ERROR (s_error_calling_tool ++ s_send_telegram_message ++ s_colon ++ exn_str e);;
         mret [text_content (s_error ++ exn_str e)]) w.
Proof. unfold call_tool, dispatch. by rewrite str_eqb_refl. Qed.

Lemma call_tool_updates env arguments w :
  get_updates_bound env = true ->
  call_tool env s_get_telegram_updates arguments w
  = try_except (get_updates env arguments)
      (fun e =>
         log ERROR (s_error_calling_tool ++ s_get_telegram_updates ++ s_colon ++ exn_str e);;
         mret [text_content (s_error ++ exn_str e)]) w.
Proof. intros Hbound. unfold call_tool, dispatch. by rewrite str_eqb_refl, Hbound. Qed.

(** C9.  Every tool call returns a list of exactly one text content item
    and never raises: [send_telegram_message] without a (truthy)
    [chat_id] or [text] returns the "required" error text; an error of
    the Bot API that is a [TelegramError] comes back as "Telegram error:
    ..." from either tool ([get_telegram_updates] once [get_updates] is
    bound); and any exception raised under the dispatch comes back as
    "Error: ..." with its message. *)
Theorem C9_call_tool_returns_one_text env name arguments w :
  (exists t w', call_tool env name arguments w = (Ret [text_content t], w'))
  /\ (forall d,
        name = s_send_telegram_message ->
        arguments = VDict d ->
        truthy (get d s_chat_id) = false \/ truthy (get d s_text) = false ->
        call_tool env name arguments w = (Ret [text_content s_required], w))
  /\ (forall d b e,
        name = s_send_telegram_message ->
        arguments = VDict d ->
        truthy (get d s_chat_id) = true ->
        truthy (get d s_text) = true ->
        the_bot env w = Some b ->
        api_send_message env b (get d s_chat_id) (get d s_text) = Raise e ->
        is_telegram_error e = true ->
        (call_tool env name arguments w).1
        = Ret [text_content (s_telegram_error ++ exn_str e)])
  /\ (forall d b e,
        name = s_get_telegram_updates ->
        get_updates_bound env = true ->
        arguments = VDict d ->
        the_bot env w = Some b ->
        api_get_updates env b (get_default d s_limit (VInt 10)) = Raise e ->
        is_telegram_error e = true ->
        (call_tool env name arguments w).1
        = Ret [text_content (s_telegram_error ++ exn_str e)])
  /\ (forall e w1,
        dispatch env name arguments w = (Raise e, w1) ->
        (call_tool env name arguments w).1 = Ret [text_content (s_error ++ exn_str e)]).
Proof.
  split; [|split; [|split; [|split]]].
  - unfold call_tool, try_except.
    destruct (dispatch env name arguments w) as [[l|e] w1] eqn:Hrun.
    + destruct (dispatch_singleton _ _ _ _ _ _ Hrun) as [t ->]. by eexists _, _.
    + by eexists _, _.
  - intros d -> -> Hmissing. rewrite call_tool_send.
    unfold try_except, send_message. cbv [mbind M_bind lift value_get].
    change (get_default d s_chat_id VNone) with (get d s_chat_id).
    change (get_default d s_text VNone) with (get d s_text).
    destruct Hmissing as [-> | ->]; [done|]. by rewrite orb_true_r.
  - intros d b e -> -> Hchat Htext Hbot Hsend Herr. rewrite call_tool_send.
    unfold try_except, send_message. cbv [mbind M_bind lift value_get].
    change (get_default d s_chat_id VNone) with (get d s_chat_id).
    change (get_default d s_text VNone) with (get d s_text).
    rewrite Hchat, Htext. cbn [negb orb].
    unfold except_telegram_error, try_except. cbv [mbind M_bind lift].
    destruct (get_bot_the_bot env w b Hbot) as [w1 ->].
    by rewrite Hsend, Herr.
  - intros d b e -> Hbound -> Hbot Hget Herr. rewrite call_tool_updates by done.
    unfold try_except, get_updates. cbv [mbind M_bind lift value_get].
    unfold except_telegram_error, try_except. cbv [mbind M_bind lift].
    destruct (get_bot_the_bot env w b Hbot) as [w1 ->].
    by rewrite Hget, Herr.
  - intros e w1 Hrun. unfold call_tool, try_except. by rewrite Hrun.
Qed.

Lemma C9_witness :
  (call_tool mcp_env (lit "send_telegram_message") send_args_without_text mcp_start).1
  = Ret [text_content s_required]
  /\ (call_tool mcp_env (lit "send_telegram_message") send_args mcp_start).1
     = Ret [text_content (s_telegram_error ++ lit "Chat not found")]
  /\ (call_tool mcp_env (lit "no_such_tool") VNone mcp_start).1
     = Ret [text_content (s_error ++ s_unknown_tool ++ lit "no_such_tool")].
Proof.
  split; [|split].
  - destruct (C9_call_tool_returns_one_text mcp_env (lit "send_telegram_message")
                send_args_without_text mcp_start) as (_ & Hmissing & _).
    rewrite (Hmissing [(lit "chat_id", VStr (lit "@someone"))] eq_refl eq_refl);
      [reflexivity | by right].
  - destruct (C9_call_tool_returns_one_text mcp_env (lit "send_telegram_message")
                send_args mcp_start) as (_ & _ & Htelegram & _).
    apply (Htelegram _ (MkBot (lit "123:abc")) (MkExn TelegramError (lit "Chat not found"))
             eq_refl eq_refl eq_refl eq_refl eq_refl eq_refl eq_refl).
  - destruct (C9_call_tool_returns_one_text mcp_env (lit "no_such_tool") VNone mcp_start)
      as (_ & _ & _ & _ & Hother).
    apply (Hother (MkExn ValueError (s_unknown_tool ++ lit "no_such_tool")) mcp_start).
    reflexivity.
Defined.

End McpServerClaims.

(** ** Scenarios of the specification *)

Section Scenarios.
Import Py Eff Examples.

(** [/fetch https://example.com] with a 5000-character content: the
    placeholder, then one reply with the first 4000 characters and the
    truncation marker. *)
Example fetch_5000_characters :
  let run := Commands.fetch_command done_services a_update some_args
               (Commands.init ok_transport) in
  run.1 = Ret tt
  /\ Commands.sent_replies (Commands.trace run.2)
     = [CommandsProps.fetch_announce (lit "https://example.com");
        CommandsProps.fetch_label ++ repeat 99%N 4000 ++ nl ++ nl ++ Commands.s_truncated].
Proof. cbv zeta. split; by vm_compute. Qed.

(** The stream [status("starting"), progress("50%"), result(success,
    "done")]: the status message is edited twice, then marked done, and
    one final reply carries "done". *)
Example claude_status_progress_result :
  let run := Commands.claude_command done_services a_update some_args
               (Commands.init ok_transport) in
  run.1 = Ret tt
  /\ Commands.sent_replies (Commands.trace run.2)
     = [Commands.s_cl_starting; CommandsProps.claude_single_label ++ lit "done"]
  /\ Commands.applied_edits (Commands.trace run.2)
     = [(Commands.MkMessage 0, Commands.s_cl_status ++ lit "starting");
        (Commands.MkMessage 0, Commands.s_cl_progress ++ lit "50%");
        (Commands.MkMessage 0, Commands.s_cl_done)].
Proof. cbv zeta. split; [|split]; by vm_compute. Qed.

(** [get_telegram_updates] with no update available: the fixed marker. *)
Example no_recent_messages :
  (McpServer.call_tool mcp_env (lit "get_telegram_updates") (VDict []) mcp_start).1
  = Ret [McpServer.text_content McpServer.s_no_recent].
Proof. by vm_compute. Qed.

(** When the placeholder of [/claude] cannot be sent, the handler's
    [except] clause reads [status_msg] before it was ever assigned. *)
Example claude_placeholder_fails :
  (Commands.claude_command done_services a_update some_args
     (Commands.init down_transport)).1
  = Raise (MkExn UnboundLocalError Commands.s_unbound_status_msg).
Proof. by vm_compute. Qed.

End Scenarios.

(** ** The retry loops, for any transport and any number of attempts *)

Section Retry.
Import Py Eff Props Commands CommandsProps Examples.
Implicit Types (w : world) (text : list N) (message : Message).

(** A single attempt. *)
Lemma retried_one a w ev ls :
  attempts [ev] = 1 -> sleeps [ev] = [] -> retried a w (advance w [ev] ls) [ev].
Proof.
  intros Hattempts Hsleeps. split; cbn [advance trace transport calls]; try done.
  - rewrite Hattempts. lia.
  - by rewrite Hsleeps, Hattempts.
  - rewrite Hattempts. lia.
Qed.

Lemma last_answer_one w ev :
  attempts [ev] = 1 -> last_answer w [ev] = transport w (calls w).
Proof. intros H. unfold last_answer. rewrite H. f_equal. lia. Qed.

(** A failed attempt and its wait, followed by the attempts of the rest of
    the loop. *)
Lemma retried_more a w ev e ls evs w' :
  attempts [ev] = 1 -> sleeps [ev] = [] ->
  transport w (calls w) = Raise e -> is_network_error e = true ->
  0 < attempts evs ->
  retried (S a) (advance w [ev; EvSleep (2 ^ a)] ls) w' evs ->
  retried a w w' ([ev; EvSleep (2 ^ a)] ++ evs)
  /\ attempts ([ev; EvSleep (2 ^ a)] ++ evs) = S (attempts evs)
  /\ last_answer w ([ev; EvSleep (2 ^ a)] ++ evs)
     = last_answer (advance w [ev; EvSleep (2 ^ a)] ls) evs.
Proof.
  intros Hattempts Hsleeps Hcall Hnet Hpos [Htrace Htransport Hcalls Hsl Hbefore].
  assert (Hatt : attempts ([ev; EvSleep (2 ^ a)] ++ evs) = S (attempts evs)).
  { change [ev; EvSleep (2 ^ a)] with ([ev] ++ [EvSleep (2 ^ a)]).
    rewrite !attempts_app, Hattempts. done. }
  split; [|split; [done|]].
  - split.
    + rewrite Htrace. cbn [advance trace]. by rewrite <- app_assoc.
    + by rewrite Htransport.
    + rewrite Hcalls, Hatt. cbn [advance calls]. lia.
    + rewrite Hatt.
      change ([ev; EvSleep (2 ^ a)] ++ evs) with ([ev] ++ [EvSleep (2 ^ a)] ++ evs).
      rewrite !sleeps_app, Hsleeps, Hsl. unfold backoff.
      replace (S (attempts evs) - 1) with (S (attempts evs - 1)) by lia. done.
    + rewrite Hatt. intros [|j] Hj.
      * rewrite Nat.add_0_r, Hcall. done.
      * specialize (Hbefore j ltac:(lia)). cbn [advance transport calls] in Hbefore.
        by replace (calls w + S j) with (S (calls w) + j) by lia.
  - unfold last_answer. rewrite Hatt. cbn [advance transport calls]. f_equal. lia.
Qed.

(** The loop of [safe_reply] over the attempts [a], [a+1], ..., [a+k-1] of
    [max_retries = a + k]. *)
Lemma safe_reply_loop_retried message text n : forall k a w,
  a + k = n ->
  exists evs,
    let run := safe_reply_loop message text n (seq a k) w in
    retried a w run.2 evs
    /\ attempts evs <= k
    /\ Forall (only_reply text) evs
    /\ (k = 0 -> run = (Ret None, w))
    /\ (0 < k ->
        0 < attempts evs
        /\ match run.1 with
           | Ret (Some m) => last_answer w evs = Ret m
           | Ret None => False
           | Raise e =>
             last_answer w evs = Raise e
             /\ (is_network_error e = true -> attempts evs = k)
           end).
Proof.
  induction k as [|k IH]; intros a w Hn.
  - exists []. cbv zeta. cbn [seq safe_reply_loop]. split; [|by repeat split; try lia].
    split; cbn; rewrite ?app_nil_r, ?Nat.add_0_r; try done. intros j Hj. lia.
  - cbn [seq]. cbv zeta. rewrite safe_reply_loop_cons.
    destruct (transport w (calls w)) as [m|e] eqn:Hcall.
    { exists [EvReply message text (Ret m)]. cbn [fst snd].
      split; [by apply retried_one|].
      split; [cbn; lia|]. split; [by repeat constructor|]. split; [done|].
      intros _. split; [cbn; lia|]. by rewrite last_answer_one. }
    destruct (is_network_error e) eqn:Hnet.
    2:{ exists [EvReply message text (Raise e)]. cbn [fst snd].
        split; [by apply retried_one|].
        split; [cbn; lia|]. split; [by repeat constructor|]. split; [done|].
        intros _. split; [cbn; lia|]. rewrite last_answer_one by done.
        split; [done|congruence]. }
    destruct (Nat.ltb_spec a (n - 1)) as [Hlt|Hge].
    2:{ exists [EvReply message text (Raise e)]. cbn [fst snd].
        split; [by apply retried_one|].
        split; [cbn; lia|]. split; [by repeat constructor|]. split; [done|].
        intros _. split; [cbn; lia|]. rewrite last_answer_one by done.
        split; [done|]. intros _. cbn. lia. }
    set (w1 := advance w [EvReply message text (Raise e); EvSleep (2 ^ a)]
                 [(WARNING, msg_network_error a e)]).
    destruct (IH (S a) w1 ltac:(lia)) as (evs & Hret & Hle & Hall & _ & Hpos).
    specialize (Hpos ltac:(lia)) as [Hpos Hlast].
    destruct (retried_more a w (EvReply message text (Raise e)) e _ evs _
                eq_refl eq_refl Hcall Hnet Hpos Hret) as (Hret' & Hatt & Hlast').
    exists ([EvReply message text (Raise e); EvSleep (2 ^ a)] ++ evs).
    split; [done|]. rewrite Hatt, Hlast'.
    split; [lia|]. split; [by repeat constructor|]. split; [done|].
    intros _. split; [lia|].
    destruct (safe_reply_loop message text n (seq (S a) k) w1).1 as [[m|]|e']; try done.
    destruct Hlast as [Hlast Hfull]. split; [done|]. intros Hn'. specialize (Hfull Hn'). lia.
Qed.

(** The loop of [safe_edit] over the attempts [a], ..., [a+k-1] of
    [max_retries = a + k]. *)
Lemma safe_edit_loop_retried message text n : forall k a w,
  a + k = n ->
  exists evs,
    let run := safe_edit_loop message text n (seq a k) w in
    retried a w run.2 evs
    /\ attempts evs <= k
    /\ Forall (only_edit message text) evs
    /\ (k = 0 -> run = (Ret None, w))
    /\ (0 < k ->
        0 < attempts evs
        /\ match run.1 with
           | Ret (Some m) => last_answer w evs = Ret m
           | Ret None => attempts evs = k /\ transient (last_answer w evs) = true
           | Raise e => last_answer w evs = Raise e /\ is_network_error e = false
           end).
Proof.
  induction k as [|k IH]; intros a w Hn.
  - exists []. cbv zeta. cbn [seq safe_edit_loop]. split; [|by repeat split; try lia].
    split; cbn; rewrite ?app_nil_r, ?Nat.add_0_r; try done. intros j Hj. lia.
  - cbn [seq]. cbv zeta. rewrite safe_edit_loop_cons.
    destruct (transport w (calls w)) as [m|e] eqn:Hcall.
    { exists [EvEdit message text (Ret m)]. cbn [fst snd].
      split; [by apply retried_one|].
      split; [cbn; lia|]. split; [by repeat constructor|]. split; [done|].
      intros _. split; [cbn; lia|]. by rewrite last_answer_one. }
    destruct (is_network_error e) eqn:Hnet.
    2:{ exists [EvEdit message text (Raise e)]. cbn [fst snd].
        split; [by apply retried_one|].
        split; [cbn; lia|]. split; [by repeat constructor|]. split; [done|].
        intros _. split; [cbn; lia|]. by rewrite last_answer_one. }
    destruct (Nat.ltb_spec a (n - 1)) as [Hlt|Hge].
    2:{ exists [EvEdit message text (Raise e)]. cbn [fst snd].
        split; [by apply retried_one|].
        split; [cbn; lia|]. split; [by repeat constructor|]. split; [done|].
        intros _. split; [cbn; lia|]. rewrite last_answer_one, Hcall by done.
        split; [cbn; lia|done]. }
    set (w1 := advance w [EvEdit message text (Raise e); EvSleep (2 ^ a)]
                 [(WARNING, msg_network_error a e)]).
    destruct (IH (S a) w1 ltac:(lia)) as (evs & Hret & Hle & Hall & _ & Hpos).
    specialize (Hpos ltac:(lia)) as [Hpos Hlast].
    destruct (retried_more a w (EvEdit message text (Raise e)) e _ evs _
                eq_refl eq_refl Hcall Hnet Hpos Hret) as (Hret' & Hatt & Hlast').
    exists ([EvEdit message text (Raise e); EvSleep (2 ^ a)] ++ evs).
    split; [done|]. rewrite Hatt, Hlast'.
    split; [lia|]. split; [by repeat constructor|]. split; [done|].
    intros _. split; [lia|].
    destruct (safe_edit_loop message text n (seq (S a) k) w1).1 as [[m|]|e']; try done.
    destruct Hlast as [Hfull Hlast]. split; [lia|done].
Qed.

Lemma attempts_trace_one attempt (tr : nat -> Py.result Message) c a :
  attempts_trace attempt tr c a 1 = [attempt (tr c)].
Proof. done. Qed.

Lemma attempts_trace_more attempt (tr : nat -> Py.result Message) c a k :
  0 < k ->
  attempts_trace attempt tr c a (S k)
  = [attempt (tr c); EvSleep (2 ^ a)] ++ attempts_trace attempt tr (S c) (S a) k.
Proof. intros Hk. destruct k as [|k]; [lia|done]. Qed.

(** The trace of the loop of [safe_reply] over the attempts [a], ...,
    [a+k-1] of [max_retries = a + k]. *)
Lemma safe_reply_loop_trace message text n : forall k a w,
  a + k = n ->
  exists j,
    let w' := (safe_reply_loop message text n (seq a k) w).2 in
    j <= k /\ (0 < k -> 0 < j)
    /\ trace w'
       = trace w ++ attempts_trace (EvReply message text) (transport w) (calls w) a j
    /\ calls w' = calls w + j
    /\ transport w' = transport w
    /\ forall i, S i < j -> transient (transport w (calls w + i)) = true.
Proof.
  induction k as [|k IH]; intros a w Hn.
  - exists 0. cbv zeta. cbn [seq safe_reply_loop attempts_trace mret M_ret snd].
    rewrite app_nil_r, Nat.add_0_r. repeat split; try done; try lia; intros i Hi; lia.
  - cbn [seq]. cbv zeta. rewrite safe_reply_loop_cons.
    destruct (transport w (calls w)) as [m|e] eqn:Hcall.
    { exists 1. rewrite attempts_trace_one, Hcall. cbn [snd advance trace calls transport].
      repeat split; try done; try lia; intros i Hi; lia. }
    destruct (is_network_error e) eqn:Hnet.
    2:{ exists 1. rewrite attempts_trace_one, Hcall. cbn [snd advance trace calls transport].
        repeat split; try done; try lia; intros i Hi; lia. }
    destruct (Nat.ltb_spec a (n - 1)) as [Hlt|Hge].
    2:{ exists 1. rewrite attempts_trace_one, Hcall. cbn [snd advance trace calls transport].
        repeat split; try done; try lia; intros i Hi; lia. }
    set (w1 := advance w [EvReply message text (Raise e); EvSleep (2 ^ a)]
                 [(WARNING, msg_network_error a e)]).
    destruct (IH (S a) w1 ltac:(lia)) as (j & Hle & Hpos & Htrace & Hcalls & Htr & Hbefore).
    specialize (Hpos ltac:(lia)).
    exists (S j). rewrite (attempts_trace_more _ _ _ _ _ Hpos), Hcall.
    split; [lia|]. split; [lia|]. split; [|split; [|split]].
    + rewrite Htrace. cbn [w1 advance trace transport calls]. by rewrite <- app_assoc.
    + rewrite Hcalls. cbn [w1 advance calls]. lia.
    + by rewrite Htr.
    + intros [|i] Hi.
      * rewrite Nat.add_0_r, Hcall. done.
      * specialize (Hbefore i ltac:(lia)). cbn [w1 advance transport calls] in Hbefore.
        by replace (calls w + S i) with (S (calls w) + i) by lia.
Qed.

Lemma safe_edit_loop_trace message text n : forall k a w,
  a + k = n ->
  exists j,
    let w' := (safe_edit_loop message text n (seq a k) w).2 in
    j <= k /\ (0 < k -> 0 < j)
    /\ trace w'
       = trace w ++ attempts_trace (EvEdit message text) (transport w) (calls w) a j
    /\ calls w' = calls w + j
    /\ transport w' = transport w
    /\ forall i, S i < j -> transient (transport w (calls w + i)) = true.
Proof.
  induction k as [|k IH]; intros a w Hn.
  - exists 0. cbv zeta. cbn [seq safe_edit_loop attempts_trace mret M_ret snd].
    rewrite app_nil_r, Nat.add_0_r. repeat split; try done; try lia; intros i Hi; lia.
  - cbn [seq]. cbv zeta. rewrite safe_edit_loop_cons.
    destruct (transport w (calls w)) as [m|e] eqn:Hcall.
    { exists 1. rewrite attempts_trace_one, Hcall. cbn [snd advance trace calls transport].
      repeat split; try done; try lia; intros i Hi; lia. }
    destruct (is_network_error e) eqn:Hnet.
    2:{ exists 1. rewrite attempts_trace_one, Hcall. cbn [snd advance trace calls transport].
        repeat split; try done; try lia; intros i Hi; lia. }
    destruct (Nat.ltb_spec a (n - 1)) as [Hlt|Hge].
    2:{ exists 1. rewrite attempts_trace_one, Hcall. cbn [snd advance trace calls transport].
        repeat split; try done; try lia; intros i Hi; lia. }
    set (w1 := advance w [EvEdit message text (Raise e); EvSleep (2 ^ a)]
                 [(WARNING, msg_network_error a e)]).
    destruct (IH (S a) w1 ltac:(lia)) as (j & Hle & Hpos & Htrace & Hcalls & Htr & Hbefore).
    specialize (Hpos ltac:(lia)).
    exists (S j). rewrite (attempts_trace_more _ _ _ _ _ Hpos), Hcall.
    split; [lia|]. split; [lia|]. split; [|split; [|split]].
    + rewrite Htrace. cbn [w1 advance trace transport calls]. by rewrite <- app_assoc.
    + rewrite Hcalls. cbn [w1 advance calls]. lia.
    + by rewrite Htr.
    + intros [|i] Hi.
      * rewrite Nat.add_0_r, Hcall. done.
      * specialize (Hbefore i ltac:(lia)). cbn [w1 advance transport calls] in Hbefore.
        by replace (calls w + S i) with (S (calls w) + i) by lia.
Qed.

(** X1.  Whatever the transport does and whatever [max_retries] is,
    [safe_reply] and [safe_edit] add to the trace exactly this: some
    number [k <= max_retries] of calls of the transport, the first unless
    [max_retries] is 0, each a reply to (an edit of) the message they were
    given with the text they were given, with one wait between each call
    and the next, of 1, 2, 4, ... time units, and none after the last
    call; every call but the last failed with a [NetworkError] or
    [TimedOut]; nothing else is called, and the transport is left as it
    was. *)
Theorem retry_effort_is_bounded message text max_retries w :
  (exists k,
     let w' := (safe_reply_n message text max_retries w).2 in
     k <= max_retries /\ (0 < max_retries -> 0 < k)
     /\ trace w'
        = trace w ++ attempts_trace (EvReply message text) (transport w) (calls w) 0 k
     /\ calls w' = calls w + k
     /\ transport w' = transport w
     /\ forall i, S i < k -> transient (transport w (calls w + i)) = true)
  /\ (exists k,
        let w' := (safe_edit_n message text max_retries w).2 in
        k <= max_retries /\ (0 < max_retries -> 0 < k)
        /\ trace w'
           = trace w ++ attempts_trace (EvEdit message text) (transport w) (calls w) 0 k
        /\ calls w' = calls w + k
        /\ transport w' = transport w
        /\ forall i, S i < k -> transient (transport w (calls w + i)) = true).
Proof.
  split.
  - exact (safe_reply_loop_trace message text max_retries max_retries 0 w eq_refl).
  - exact (safe_edit_loop_trace message text max_retries max_retries 0 w eq_refl).
Qed.

(** X2.  With at least one attempt allowed, what [safe_reply] returns or
    raises is what the transport answered to its last call: it never
    returns [None], and when it raises a [NetworkError] or [TimedOut] it
    has used all its attempts. *)
Theorem safe_reply_outcome_is_last_answer message text max_retries w :
  0 < max_retries ->
  exists evs,
    let run := safe_reply_n message text max_retries w in
    retried 0 w run.2 evs
    /\ 0 < attempts evs
    /\ match run.1 with
       | Ret (Some m) => last_answer w evs = Ret m
       | Ret None => False
       | Raise e =>
         last_answer w evs = Raise e
         /\ (is_network_error e = true -> attempts evs = max_retries)
       end.
Proof.
  intros Hpos.
  destruct (safe_reply_loop_retried message text max_retries max_retries 0 w eq_refl)
    as (evs & Hret & _ & _ & _ & Hlast).
  exists evs. cbv zeta in *. unfold safe_reply_n. destruct (Hlast Hpos). done.
Qed.

Lemma safe_reply_outcome_is_last_answer_witness :
  exists evs,
    let run := safe_reply a_status (lit "hello") (init flaky_transport) in
    retried 0 (init flaky_transport) run.2 evs
    /\ 0 < attempts evs
    /\ match run.1 with
       | Ret (Some m) => last_answer (init flaky_transport) evs = Ret m
       | Ret None => False
       | Raise e =>
         last_answer (init flaky_transport) evs = Raise e
         /\ (is_network_error e = true -> attempts evs = 3)
       end.
Proof.
  apply (safe_reply_outcome_is_last_answer a_status (lit "hello") 3 (init flaky_transport)).
  lia.
Defined.

(** X3.  With at least one attempt allowed, [safe_edit] returns the
    message of the transport's last answer, or [None] when every one of
    its [max_retries] attempts failed with [NetworkError] or [TimedOut],
    or raises the transport's last answer when that is any other error;
    it never raises a [NetworkError] or [TimedOut]. *)
Theorem safe_edit_outcome message text max_retries w :
  0 < max_retries ->
  exists evs,
    let run := safe_edit_n message text max_retries w in
    retried 0 w run.2 evs
    /\ 0 < attempts evs
    /\ match run.1 with
       | Ret (Some m) => last_answer w evs = Ret m
       | Ret None =>
         attempts evs = max_retries
         /\ forall j, j < max_retries -> transient (transport w (calls w + j)) = true
       | Raise e => last_answer w evs = Raise e /\ is_network_error e = false
       end.
Proof.
  intros Hpos.
  destruct (safe_edit_loop_retried message text max_retries max_retries 0 w eq_refl)
    as (evs & Hret & _ & _ & _ & Hlast).
  exists evs. cbv zeta in *. unfold safe_edit_n in *. destruct (Hlast Hpos) as [Hatt Hout].
  split; [done|]. split; [done|].
  destruct (safe_edit_loop message text max_retries (seq 0 max_retries) w).1
    as [[m|]|e]; try done.
  destruct Hout as [Hfull Hlast']. split; [done|].
  intros j Hj. destruct (decide (S j < attempts evs)) as [Hbefore|Hlastj].
  - by apply (retried_before _ _ _ _ Hret).
  - unfold last_answer in Hlast'. by replace (calls w + attempts evs - 1)
      with (calls w + j) in Hlast' by lia.
Qed.

Lemma safe_edit_outcome_witness :
  exists evs,
    let run := safe_edit a_status (lit "hello") (init down_transport) in
    retried 0 (init down_transport) run.2 evs
    /\ 0 < attempts evs
    /\ match run.1 with
       | Ret (Some m) => last_answer (init down_transport) evs = Ret m
       | Ret None =>
         attempts evs = 3
         /\ forall j, j < 3 ->
              transient (transport (init down_transport)
                           (calls (init down_transport) + j)) = true
       | Raise e => last_answer (init down_transport) evs = Raise e
                    /\ is_network_error e = false
       end.
Proof.
  apply (safe_edit_outcome a_status (lit "hello") 3 (init down_transport)). lia.
Defined.

End Retry.

(** ** Sizes of chunks and of truncated texts *)

Section Sizes.
Import Py Eff Props Commands CommandsProps Examples.
Implicit Types (s : list N) (n i : nat).

Lemma ceil_div_gt a b i : 0 < b -> i < ceil_div a b -> i * b < a.
Proof.
  intros Hb Hi. unfold ceil_div in Hi.
  assert (b * S i <= a + b - 1).
  { etrans; [|apply (Nat.Div0.mul_div_le (a + b - 1) b)].
    apply Nat.mul_le_mono_l. lia. }
  nia.
Qed.

(** X4.  The pieces [[s[i:i+n] for i in range(0, len(s), n)]] are never
    empty and never longer than [n]; every piece but the last has
    exactly [n] characters; an empty text has no piece. *)
Theorem chunks_are_full_but_the_last s n i c :
  0 < n ->
  chunks_of s n !! i = Some c ->
  0 < length c <= n
  /\ (S i < length (chunks_of s n) -> length c = n)
  /\ (s = [] -> False).
Proof.
  intros Hn Hc.
  assert (Hi : i < ceil_div (length s) n).
  { rewrite <- chunks_of_length by done. by eapply lookup_lt_Some. }
  rewrite chunks_of_lookup in Hc by done. injection Hc as <-.
  pose proof (ceil_div_gt _ _ _ Hn Hi) as Hlt.
  rewrite length_take, length_drop. split; [lia|]. split.
  - rewrite chunks_of_length by done. intros Hnext.
    pose proof (ceil_div_gt _ _ _ Hn Hnext). lia.
  - intros ->. cbn in Hlt. lia.
Qed.

Lemma chunks_are_full_but_the_last_witness :
  0 < length (take 4000 text_4001) <= 4000
  /\ (1 < length (chunks_of text_4001 4000) -> length (take 4000 text_4001) = 4000)
  /\ (text_4001 = [] -> False).
Proof.
  apply (chunks_are_full_but_the_last text_4001 4000 0 (take 4000 text_4001)).
  - lia.
  - by vm_compute.
Defined.

(** X5.  The two truncations, of the fetched content at 4000 and of the
    error text of a failed execution at 3800, leave a short text as it
    is, keep the first 4000 (3800) characters of a long one, and never
    give more than 4017 (3811) characters. *)
Theorem truncations_are_bounded content r :
  (length content <= 4000 -> fetch_truncate content = content)
  /\ take 4000 (fetch_truncate content) = take 4000 content
  /\ length (fetch_truncate content) <= 4017
  /\ (let error_msg := match strip (stderr r) with
                       | [] => strip (stdout r)
                       | err => err
                       end in
      (length error_msg <= 3800 -> claude_error_msg r = error_msg)
      /\ take 3800 (claude_error_msg r) = take 3800 error_msg
      /\ length (claude_error_msg r) <= 3811).
Proof.
  assert (Hcut : forall (t marker : list N) k,
            k < length t ->
            take k (slice t 0 k ++ nl ++ nl ++ marker) = take k t
            /\ length (slice t 0 k ++ nl ++ nl ++ marker) = k + 2 + length marker).
  { intros t marker k Hk. unfold slice. rewrite Nat.sub_0_r, drop_0. split.
    - rewrite take_app_le by (rewrite length_take; lia).
      rewrite take_take. f_equal. lia.
    - rewrite !length_app, length_take. cbn. lia. }
  unfold fetch_truncate, claude_error_msg, len. cbv zeta.
  set (error_msg := match strip (stderr r) with [] => strip (stdout r) | err => err end).
  split; [|split; [|split; [|split; [|split]]]].
  - intros Hle. destruct (Nat.ltb_spec 4000 (length content)); [lia|done].
  - destruct (Nat.ltb_spec 4000 (length content)) as [Hlt|]; [|done].
    by destruct (Hcut content s_truncated 4000 Hlt).
  - destruct (Nat.ltb_spec 4000 (length content)) as [Hlt|]; [|lia].
    destruct (Hcut content s_truncated 4000 Hlt) as [_ ->]. cbn. lia.
  - intros Hle. destruct (Nat.ltb_spec 3800 (length error_msg)); [lia|done].
  - destruct (Nat.ltb_spec 3800 (length error_msg)) as [Hlt|]; [|done].
    by destruct (Hcut error_msg s_cl_cut 3800 Hlt).
  - destruct (Nat.ltb_spec 3800 (length error_msg)) as [Hlt|]; [|lia].
    destruct (Hcut error_msg s_cl_cut 3800 Hlt) as [_ ->]. cbn. lia.
Qed.

End Sizes.

(** ** The handlers, whatever the services do *)

Section Outcomes.
Import Py Eff Props Commands CommandsProps Examples.
Implicit Types (tr : nat -> result Message) (svc : services) (update : Update)
  (context : Context).

Lemma wp_outcome {A} tr (m : Commands.M A) post :
  wp tr m (fun a => post (Ret a)) -> outcome tr m post.
Proof.
  intros Hm w Htr. destruct (Hm w Htr) as (a & w' & rs & es & ? & ? & ? & ? & ?).
  by exists (Ret a), w', rs, es.
Qed.

Lemma outcome_raise {A} tr (e : exn) post :
  post (Raise e) [] [] -> outcome tr (raise e : Commands.M A) post.
Proof. intros Hpost w Htr. exists (Raise e), w, [], []. by rewrite !app_nil_r. Qed.

Lemma outcome_lift {A} tr (r : result A) post :
  post r [] [] -> outcome tr (lift r) post.
Proof. intros Hpost w Htr. exists r, w, [], []. by rewrite !app_nil_r. Qed.

Lemma wp_log tr l msg post : post tt [] [] -> wp tr (log l msg) post.
Proof.
  intros Hpost w Htr. eexists tt, _, [], []. split; [reflexivity|].
  cbn [transport trace]. by rewrite !app_nil_r.
Qed.

Lemma outcome_bind {A B} tr (m : Commands.M A) (f : A -> Commands.M B) post :
  outcome tr m
    (fun r rs es =>
       match r with
       | Ret a => outcome tr (f a) (fun r' rs' es' => post r' (rs ++ rs') (es ++ es'))
       | Raise e => post (Raise e) rs es
       end) ->
  outcome tr (m ≫= f) post.
Proof.
  intros Hm w Htr.
  destruct (Hm w Htr) as ([a|e] & w1 & rs & es & Hrun & Htr1 & Hrs & Hes & Hf).
  - destruct (Hf w1 Htr1) as (r & w2 & rs' & es' & Hrun' & Htr2 & Hrs' & Hes' & Hpost).
    exists r, w2, (rs ++ rs'), (es ++ es'). unfold mbind, M_bind. rewrite Hrun, Hrun'.
    by rewrite Hrs', Hrs, Hes', Hes, !app_assoc.
  - exists (Raise e), w1, rs, es. unfold mbind, M_bind. by rewrite Hrun.
Qed.

Lemma outcome_try_except {A} tr (body : Commands.M A) handler post :
  outcome tr body
    (fun r rs es =>
       match r with
       | Ret a => post (Ret a) rs es
       | Raise e =>
         outcome tr (handler e) (fun r' rs' es' => post r' (rs ++ rs') (es ++ es'))
       end) ->
  outcome tr (try_except body handler) post.
Proof.
  intros Hm w Htr.
  destruct (Hm w Htr) as ([a|e] & w1 & rs & es & Hrun & Htr1 & Hrs & Hes & Hf).
  - exists (Ret a), w1, rs, es. unfold try_except. by rewrite Hrun.
  - destruct (Hf w1 Htr1) as (r & w2 & rs' & es' & Hrun' & Htr2 & Hrs' & Hes' & Hpost).
    exists r, w2, (rs ++ rs'), (es ++ es'). unfold try_except. rewrite Hrun, Hrun'.
    by rewrite Hrs', Hrs, Hes', Hes, !app_assoc.
Qed.

(** [try_let] when the first step returns. *)
Lemma outcome_try_let {A B} tr (first : Commands.M A) (rest : A -> Commands.M B)
    handler post :
  wp tr first
    (fun a rs es =>
       outcome tr (rest a)
         (fun r rs' es' =>
            match r with
            | Ret b => post (Ret b) (rs ++ rs') (es ++ es')
            | Raise e =>
              outcome tr (handler (Some a) e)
                (fun r' rs'' es'' => post r' (rs ++ rs' ++ rs'') (es ++ es' ++ es''))
            end)) ->
  outcome tr (try_let first rest handler) post.
Proof.
  intros Hm w Htr.
  destruct (Hm w Htr) as (a & w1 & rs & es & Hrun & Htr1 & Hrs & Hes & Hrest).
  destruct (Hrest w1 Htr1) as ([b|e] & w2 & rs' & es' & Hrun' & Htr2 & Hrs' & Hes' & Hh).
  - exists (Ret b), w2, (rs ++ rs'), (es ++ es'). unfold try_let. rewrite Hrun, Hrun'.
    by rewrite Hrs', Hrs, Hes', Hes, !app_assoc.
  - destruct (Hh w2 Htr2) as (r & w3 & rs'' & es'' & Hrun'' & Htr3 & Hrs'' & Hes'' & Hpost).
    exists r, w3, (rs ++ rs' ++ rs''), (es ++ es' ++ es''). unfold try_let.
    rewrite Hrun, Hrun', Hrun''.
    by rewrite Hrs'', Hrs', Hrs, Hes'', Hes', Hes, <- !app_assoc.
Qed.

Lemma outcome_init {A} tr (m : Commands.M A) post :
  outcome tr m post ->
  exists r w',
    m (init tr) = (r, w')
    /\ post r (sent_replies (trace w')) (applied_edits (trace w')).
Proof.
  intros Hm. destruct (Hm (init tr) eq_refl) as (r & w' & rs & es & Hrun & _ & Hrs & Hes & Hpost).
  exists r, w'. split; [done|]. by rewrite Hrs, Hes.
Qed.

Lemma outcome_bind_wp {A B} tr (m : Commands.M A) (f : A -> Commands.M B) post :
  wp tr m
    (fun a rs es => outcome tr (f a) (fun r rs' es' => post r (rs ++ rs') (es ++ es'))) ->
  outcome tr (m ≫= f) post.
Proof. intros Hm. apply outcome_bind, wp_outcome. exact Hm. Qed.

Lemma grows_ret {A} (a : A) : grows (mret a : Commands.M A).
Proof. intros w. exists []. by rewrite app_nil_r. Qed.

Lemma grows_raise {A} e : grows (raise e : Commands.M A).
Proof. intros w. exists []. by rewrite app_nil_r. Qed.

Lemma grows_lift {A} (r : result A) : grows (lift r : Commands.M A).
Proof. intros w. exists []. by rewrite app_nil_r. Qed.

Lemma grows_log l msg : grows (log l msg).
Proof. intros w. exists []. cbn. by rewrite app_nil_r. Qed.

Lemma grows_bind {A B} (m : Commands.M A) (f : A -> Commands.M B) :
  grows m -> (forall a, grows (f a)) -> grows (m ≫= f).
Proof.
  intros Hm Hf w. unfold mbind, M_bind. destruct (Hm w) as [evs Hevs].
  destruct (m w) as [[a|e] w1]; cbn [snd] in *.
  - destruct (Hf a w1) as [evs' Hevs']. exists (evs ++ evs').
    by rewrite Hevs', Hevs, app_assoc.
  - by exists evs.
Qed.

Lemma grows_try_except {A} (body : Commands.M A) handler :
  grows body -> (forall e, grows (handler e)) -> grows (try_except body handler).
Proof.
  intros Hm Hf w. unfold try_except. destruct (Hm w) as [evs Hevs].
  destruct (body w) as [[a|e] w1]; cbn [snd] in *.
  - by exists evs.
  - destruct (Hf e w1) as [evs' Hevs']. exists (evs ++ evs').
    by rewrite Hevs', Hevs, app_assoc.
Qed.

Lemma grows_for_each {A} (l : list A) (body : A -> Commands.M unit) :
  (forall x, grows (body x)) -> grows (for_each l body).
Proof.
  intros Hbody. induction l as [|x l IH]; cbn [for_each].
  - apply grows_ret.
  - apply grows_bind; [apply Hbody|]. intros _. exact IH.
Qed.

Lemma grows_safe_reply message text : grows (safe_reply message text).
Proof.
  intros w. destruct (safe_reply_loop_trace message text 3 3 0 w eq_refl)
    as (j & _ & _ & Htrace & _).
  by eexists.
Qed.

Lemma grows_safe_edit message text : grows (safe_edit message text).
Proof.
  intros w. destruct (safe_edit_loop_trace message text 3 3 0 w eq_refl)
    as (j & _ & _ & Htrace & _).
  by eexists.
Qed.

Ltac grows_step :=
  first
    [ apply grows_ret | apply grows_raise | apply grows_lift | apply grows_log
    | apply grows_safe_reply | apply grows_safe_edit
    | apply grows_bind; [|intros ?]
    | apply grows_try_except; [|intros ?]
    | apply grows_for_each; intros ?
    | match goal with
      | |- grows (if ?b then _ else _) => destruct b
      | |- grows (match ?x with _ => _ end) => destruct x
      end ].

(** Under a responsive transport [safe_reply] returns the message the
    transport returned for the reply it accepted. *)
Lemma safe_reply_answered tr message text w :
  responsive tr ->
  transport w = tr ->
  exists m w1 evs,
    safe_reply message text w = (Ret (Some m), w1)
    /\ transport w1 = tr
    /\ trace w1 = trace w ++ evs
    /\ answered_replies evs = [(message, text, m)]
    /\ sent_replies evs = [text]
    /\ applied_edits evs = [].
Proof.
  intros Hresp <-. specialize (Hresp (calls w)). unfold responsive_at in Hresp.
  rewrite safe_reply_unfold, safe_reply_loop_cons.
  destruct (transport w (calls w)) as [m0|e0].
  { eexists m0, _, _. split; [reflexivity|]. by cbn [advance trace transport]. }
  cbn [delivered transient orb] in Hresp.
  destruct (is_network_error e0); [|done]. cbn [andb] in Hresp.
  cbn [Nat.ltb Nat.leb Nat.sub].
  rewrite safe_reply_loop_cons. cbn [advance transport calls].
  destruct (transport w (S (calls w))) as [m1|e1].
  { eexists m1, _, _. split; [reflexivity|]. cbn [advance trace transport].
    rewrite <- app_assoc. by repeat split. }
  cbn [delivered transient orb] in Hresp.
  destruct (is_network_error e1); [|done]. cbn [andb] in Hresp.
  cbn [Nat.ltb Nat.leb Nat.sub].
  rewrite safe_reply_loop_cons. cbn [advance transport calls].
  destruct (transport w (S (S (calls w)))) as [m2|e2]; [|done].
  eexists m2, _, _. split; [reflexivity|]. cbn [advance trace transport].
  rewrite <- !app_assoc. by repeat split.
Qed.

(** A handler whose [try] starts with the placeholder, run from the
    start under a responsive transport: the rest of the handler runs
    with the message the transport returned for the placeholder. *)
Lemma try_let_answered {B} tr message text (rest : option Message -> Commands.M B)
    handler (post : Message -> result B -> list (list N) -> list (Message * list N) -> Prop) :
  responsive tr ->
  (forall m, outcome tr (try_except (rest (Some m)) (handler (Some (Some m)))) (post m)) ->
  (forall m, grows (try_except (rest (Some m)) (handler (Some (Some m))))) ->
  exists r w' m rs es,
    try_let (safe_reply message text) rest handler (init tr) = (r, w')
    /\ head (answered_replies (trace w')) = Some (message, text, m)
    /\ sent_replies (trace w') = text :: rs
    /\ applied_edits (trace w') = es
    /\ post m r rs es.
Proof.
  intros Hresp Hout Hgrows.
  destruct (safe_reply_answered tr message text (init tr) Hresp eq_refl)
    as (m & w1 & evs1 & Hfirst & Htr1 & Htrace1 & Hans1 & Hrs1 & Hes1).
  cbn [init trace app] in Htrace1.
  destruct (Hout m w1 Htr1) as (r & w' & rs & es & Hrun & _ & Hrs & Hes & Hpost).
  destruct (Hgrows m w1) as [evs2 Htrace2]. rewrite Hrun in Htrace2. cbn [snd] in Htrace2.
  exists r, w', m, rs, es.
  split.
  { unfold try_let. rewrite Hfirst. unfold try_except in Hrun. exact Hrun. }
  split.
  { rewrite Htrace2, Htrace1. unfold answered_replies in *. by rewrite omap_app, Hans1. }
  split; [by rewrite Hrs, Htrace1, Hrs1|].
  split; [by rewrite Hes, Htrace1, Hes1|done].
Qed.



(** X7.  Under a responsive transport [/claude] with arguments always
    returns, whatever the stream yields and however it ends: after the
    placeholder it sends, update by update in stream order, the replies
    of each result (status, progress and unknown updates send nothing,
    and a result does not end the loop), then the error reply if the
    stream ended with an exception; every edit is of the message that
    the transport returned for the placeholder, one per status, progress
    or result update, plus the error status at the end. *)
Theorem claude_handles_every_update tr svc update context :
  responsive tr ->
  args context <> [] ->
  let stream := execute_claude_code_with_status svc (join [32%N] (args context)) in
  exists w' status_msg,
    claude_command svc update context (init tr) = (Ret tt, w')
    /\ head (answered_replies (trace w'))
       = Some (message update, s_cl_starting, status_msg)
    /\ sent_replies (trace w')
       = s_cl_starting :: concat (map update_replies stream.1)
           ++ failure_replies stream.2
    /\ applied_edits (trace w')
       = concat (map (update_edits status_msg) stream.1)
           ++ failure_edits status_msg stream.2.
Proof.
  intros Hresp Hargs. cbv zeta. unfold claude_command.
  remember (execute_claude_code_with_status svc (join [32%N] (args context)))
    as stream eqn:Hstream.
  clear Hstream. destruct (args context) as [|a rest] eqn:Ha; [done|].
  match goal with
  | |- context [try_let ?first ?body ?handler] =>
    destruct (try_let_answered tr (message update) s_cl_starting body handler
                (fun m r rs es =>
                   r = Ret tt
                   /\ rs = concat (map update_replies stream.1)
                             ++ failure_replies stream.2
                   /\ es = concat (map (update_edits m) stream.1)
                             ++ failure_edits m stream.2)
                Hresp)
      as (r & w' & status_msg & rs & es & Hrun & Hhead & Hrs & Hes & -> & -> & ->)
  end.
  - intros status_msg. apply outcome_try_except.
    destruct stream as [updates failure]. cbn [fst snd].
    apply outcome_bind_wp. eapply wp_mono.
    { apply wp_for_each. intros u _. by apply wp_claude_on_update. }
    intros _ rs es [-> ->]. destruct failure as [e|].
    + apply outcome_raise. unfold claude_except. cbn [if_status_msg]. apply wp_outcome.
      apply wp_bind. apply wp_log.
      apply wp_bind. apply wp_bind. apply wp_safe_edit; [done|]. intros _.
      apply wp_ret. apply wp_bind. apply wp_safe_reply; [done|]. intros m.
      apply wp_ret. rewrite !app_nil_r. by cbn [app failure_replies failure_edits].
    + apply wp_outcome, wp_ret. cbn [app failure_replies failure_edits].
      by rewrite !app_nil_r.
  - intros status_msg. unfold claude_except, claude_on_update. cbn [if_status_msg].
    repeat grows_step.
  - exists w', status_msg. by rewrite Hrun, Hes.
Qed.

Lemma claude_handles_every_update_witness :
  exists w' status_msg,
    claude_command failing_services a_update some_args (init flaky_transport)
    = (Ret tt, w')
    /\ head (answered_replies (trace w'))
       = Some (message a_update, s_cl_starting, status_msg)
    /\ sent_replies (trace w') = [s_cl_starting; s_error ++ lit "stream closed"]
    /\ applied_edits (trace w')
       = [(status_msg, s_cl_status ++ lit "starting"); (status_msg, s_cl_error)].
Proof.
  apply (claude_handles_every_update flaky_transport failing_services a_update some_args
           flaky_responsive ltac:(discriminate)).
Defined.

(** X8.  Under a transport that accepts every call [/fetch] with an
    argument always returns after exactly two replies and no edit: the
    announcement, then the content (cut at 4000) when the fetcher returns
    or "Error fetching URL: ..." with the exception's text when it
    raises. *)
Theorem fetch_always_answers tr svc update context url rest :
  reliable tr ->
  args context = url :: rest ->
  exists w',
    fetch_command svc update context (init tr) = (Ret tt, w')
    /\ sent_replies (trace w')
       = [fetch_announce url; fetch_last_reply (fetch_url_content svc url)]
    /\ applied_edits (trace w') = [].
Proof.
  intros Hrel Hargs.
  assert (Hout : outcome tr (fetch_command svc update context)
            (fun r rs es =>
               r = Ret tt
               /\ rs = [fetch_announce url; fetch_last_reply (fetch_url_content svc url)]
               /\ es = [])).
  { unfold fetch_command. rewrite Hargs.
    apply outcome_bind_wp. apply wp_reply_text; [done|]. intros _.
    apply outcome_try_except. apply outcome_bind.
    destruct (fetch_url_content svc url) as [content|e]; apply outcome_lift.
    - apply wp_outcome. apply wp_bind. apply wp_reply_text; [done|]. intros _.
      by apply wp_ret.
    - apply wp_outcome. apply wp_bind. apply wp_log.
      apply wp_bind. apply wp_reply_text; [done|]. intros _. by apply wp_ret. }
  destruct (outcome_init _ _ _ Hout) as (r & w' & Hrun & -> & Hrs & Hes).
  by exists w'.
Qed.

Lemma fetch_always_answers_witness :
  exists w',
    fetch_command failing_services a_update some_args (init ok_transport) = (Ret tt, w')
    /\ sent_replies (trace w')
       = [fetch_announce (lit "https://example.com");
          s_error_fetching ++ lit "connection refused"]
    /\ applied_edits (trace w') = [].
Proof.
  apply (fetch_always_answers ok_transport failing_services a_update some_args
           (lit "https://example.com") [] ok_reliable eq_refl).
Defined.

(** X9.  [/fetch] calls the transport directly, without retry or wait,
    whatever the transport and the fetcher do.  A failure of the
    announcement propagates before the fetcher's result is used; a failure
    of the transport while the content is sent is caught by the same
    [except] as a failure of the fetcher, so it is reported to the user as
    "Error fetching URL: ..." with the transport's error text; and a
    failure of that error reply propagates. *)
Theorem fetch_command_never_retries tr svc update context url rest :
  args context = url :: rest ->
  let run := fetch_command svc update context (init tr) in
  let replies := sent_replies (trace run.2) in
  sleeps (trace run.2) = []
  /\ attempts (trace run.2) = calls run.2
  /\ match tr 0 with
     | Raise e => run.1 = Raise e /\ calls run.2 = 1 /\ replies = []
     | Ret _ =>
       match fetch_url_content svc url, tr 1 with
       | Ret content, Ret _ =>
         run.1 = Ret tt /\ calls run.2 = 2
         /\ replies = [fetch_announce url; fetch_final content]
       | Raise e, Ret _ =>
         run.1 = Ret tt /\ calls run.2 = 2
         /\ replies = [fetch_announce url; s_error_fetching ++ exn_str e]
       | Ret _, Raise e =>
         match tr 2 with
         | Ret _ =>
           run.1 = Ret tt /\ calls run.2 = 3
           /\ replies = [fetch_announce url; s_error_fetching ++ exn_str e]
         | Raise e' =>
           run.1 = Raise e' /\ calls run.2 = 3 /\ replies = [fetch_announce url]
         end
       | Raise _, Raise e' =>
         run.1 = Raise e' /\ calls run.2 = 2 /\ replies = [fetch_announce url]
       end
     end.
Proof.
  intros Hargs run replies. subst replies run.
  unfold fetch_command, fetch_announce, fetch_final. rewrite Hargs.
  unfold try_except, mbind, M_bind, mret, M_ret, lift, log, reply_text, init.
  cbn [transport calls trace logs].
  destruct (tr 0) as [m0|e0] eqn:H0; cbn [transport calls trace logs fst snd app].
  2: { done. }
  destruct (fetch_url_content svc url) as [content|e];
    cbn [transport calls trace logs fst snd app];
    destruct (tr 1) as [m1|e1] eqn:H1; cbn [transport calls trace logs fst snd app];
    rewrite ?H0, ?H1; try done.
  destruct (tr 2) as [m2|e2] eqn:H2; cbn [transport calls trace logs fst snd app];
    by rewrite ?H0, ?H1, ?H2.
Qed.

Lemma fetch_command_never_retries_witness :
  let run := fetch_command long_services a_update some_args (init flaky_transport) in
  sleeps (trace run.2) = []
  /\ attempts (trace run.2) = calls run.2
  /\ run.1 = Raise (MkExn TimedOut (lit "Timed out"))
  /\ calls run.2 = 1
  /\ sent_replies (trace run.2) = [].
Proof.
  apply (fetch_command_never_retries flaky_transport long_services a_update some_args
           (lit "https://example.com") [] eq_refl).
Defined.

(** X10.  When the placeholder of [/deepseek] or [/claude] cannot be sent
    ([safe_reply] raises), the [except] clause reads [status_msg] before
    it was assigned: the handler raises [UnboundLocalError] instead of the
    transport's error, makes no further call of the transport and sends
    the user nothing. *)
Theorem placeholder_failure_raises_unbound_local svc update context w :
  args context <> [] ->
  let unbound := Raise (MkExn UnboundLocalError s_unbound_status_msg) in
  let ds := deepseek_command svc update context w in
  let ds_first := safe_reply (message update) s_ds_thinking w in
  let cl := claude_command svc update context w in
  let cl_first := safe_reply (message update) s_cl_starting w in
  (forall e, ds_first.1 = Raise e ->
     ds.1 = unbound /\ trace ds.2 = trace ds_first.2 /\ calls ds.2 = calls ds_first.2)
  /\ (forall e, cl_first.1 = Raise e ->
        cl.1 = unbound /\ trace cl.2 = trace cl_first.2 /\ calls cl.2 = calls cl_first.2).
Proof.
  intros Hargs unbound ds ds_first cl cl_first. subst unbound ds ds_first cl cl_first.
  unfold deepseek_command, claude_command.
  destruct (args context) as [|a rest]; [done|]. unfold try_let. split.
  - intros e Hfail.
    destruct (safe_reply (message update) s_ds_thinking w) as [[m|e'] w1]; [done|].
    unfold deepseek_except. destruct (is_value_error e'); by cbn.
  - intros e Hfail.
    destruct (safe_reply (message update) s_cl_starting w) as [[m|e'] w1]; [done|].
    unfold claude_except. by cbn.
Qed.

Lemma placeholder_failure_raises_unbound_local_witness :
  let unbound := Raise (MkExn UnboundLocalError s_unbound_status_msg) in
  let w := init blocked_transport in
  let ds := deepseek_command long_services a_update some_args w in
  let cl := claude_command long_services a_update some_args w in
  (ds.1 = unbound /\ sent_replies (trace ds.2) = [] /\ calls ds.2 = 1)
  /\ (cl.1 = unbound /\ sent_replies (trace cl.2) = [] /\ calls cl.2 = 1).
Proof.
  destruct (placeholder_failure_raises_unbound_local long_services a_update some_args
              (init blocked_transport) ltac:(discriminate)) as [Hds Hcl].
  split.
  - destruct (Hds _ eq_refl) as (H1 & H2 & H3). cbv zeta. rewrite H1, H2, H3.
    repeat split; reflexivity.
  - destruct (Hcl _ eq_refl) as (H1 & H2 & H3). cbv zeta. rewrite H1, H2, H3.
    repeat split; reflexivity.
Defined.

End Outcomes.

(** ** The adapter's failures *)

Section ClaudeCodeFailures.
Import Py Eff ClaudeCode ClaudeCodeProps Examples.

(** X11.  With a key configured, a failure of the request itself, or of
    reading the JSON body of a 200 response, leaves the adapter as an
    exception after exactly three log lines (the two INFO lines and one
    ERROR line): an [aiohttp.ClientError] is replaced by a plain
    [Exception] "Network error: ..." carrying its text, any other
    exception is raised again unchanged. *)
Theorem request_failure_is_wrapped_or_reraised cfg env operation timeout key e logs :
  api_key_of cfg = Some key ->
  let request := MkRequest (default (CLAUDE_TIMEOUT cfg) timeout) (CLAUDE_API_URL cfg)
                   (headers key) (payload cfg operation) in
  post env request = Raise e
  \/ (exists resp, post env request = Ret resp /\ status resp = 200%Z
                   /\ json resp = Raise e) ->
  execute_claude_code cfg env operation timeout logs
  = (Raise (if is_client_error e
            then MkExn Exception (s_network_error ++ exn_str e)
            else e),
     logs ++ [(INFO, s_executing ++ operation);
              (INFO, s_working_directory ++ CLAUDE_WORK_DIR cfg);
              (ERROR, (if is_client_error e then s_network_error_calling
                       else s_error_executing) ++ exn_str e)]).
Proof.
  intros Hkey request Hfail. subst request. unfold execute_claude_code. rewrite Hkey.
  cbv [mbind M_bind mret M_ret try_except lift log raise].
  destruct timeout as [t|]; cbv [default from_option id] in Hfail;
    (destruct Hfail as [-> | (resp & -> & Hstatus & Hjson)];
     [|rewrite Hstatus, Hjson; cbn [Z.eqb Pos.eqb negb]];
     destruct (is_client_error e); by rewrite <- !app_assoc).
Qed.

Lemma request_failure_is_wrapped_or_reraised_witness :
  let refused := MkExn ClientError (lit "Cannot connect to host") in
  (execute_claude_code a_config (MkEnv (fun _ => Raise refused) (fun _ => lit "..."))
     (lit "ls") None []).1
  = Raise (MkExn Exception (s_network_error ++ lit "Cannot connect to host")).
Proof.
  cbv zeta.
  rewrite (request_failure_is_wrapped_or_reraised a_config
             (MkEnv (fun _ => Raise (MkExn ClientError (lit "Cannot connect to host")))
                (fun _ => lit "..."))
             (lit "ls") None (lit "sk-test")
             (MkExn ClientError (lit "Cannot connect to host")) [] eq_refl
             (or_introl eq_refl)).
  reflexivity.
Defined.

(** X12.  A status other than 200 is logged twice as an error: once with
    the status and the body where it is detected, and once more by the
    enclosing [except Exception] clause, which catches the exception the
    adapter has just raised, logs it and raises it again.  The JSON body
    is not read. *)
Theorem status_error_is_logged_twice cfg env operation timeout key resp logs :
  api_key_of cfg = Some key ->
  post env (MkRequest (default (CLAUDE_TIMEOUT cfg) timeout) (CLAUDE_API_URL cfg)
              (headers key) (payload cfg operation)) = Ret resp ->
  status resp <> 200%Z ->
  execute_claude_code cfg env operation timeout logs
  = (Raise (MkExn Exception (api_status_message (status resp) (text resp))),
     logs ++ [(INFO, s_executing ++ operation);
              (INFO, s_working_directory ++ CLAUDE_WORK_DIR cfg);
              (ERROR, s_claude_api_error ++ str_of_int (status resp) ++ s_dash
                        ++ text resp);
              (ERROR, s_error_executing
                        ++ api_status_message (status resp) (text resp))]).
Proof.
  intros Hkey Hpost Hstatus. unfold execute_claude_code. rewrite Hkey.
  cbv [mbind M_bind mret M_ret try_except lift log raise].
  destruct timeout as [t|]; cbv [default from_option id] in Hpost; rewrite Hpost;
    (destruct (Z.eqb_spec (status resp) 200); [done|]);
    cbn [negb is_client_error exn_cls exn_str]; by rewrite <- !app_assoc.
Qed.

Lemma status_error_is_logged_twice_witness :
  length (execute_claude_code a_config (env_answering created_response)
            (lit "ls") None []).2 = 4.
Proof.
  rewrite (status_error_is_logged_twice a_config (env_answering created_response)
             (lit "ls") None (lit "sk-test") created_response [] eq_refl eq_refl
             ltac:(discriminate)).
  reflexivity.
Defined.

Lemma collect_parts_not_a_dict env pre b post result_parts :
  (forall d, b <> VDict d) ->
  collect_parts env (map VDict pre ++ b :: post) result_parts
  = Raise (no_attribute b s_get).
Proof.
  intros Hb. revert result_parts.
  induction pre as [|d pre IH]; intros result_parts; cbn [map app collect_parts].
  - destruct b; try done. by destruct (Hb d).
  - cbn [value_get mbind result_bind].
    destruct (eq_str (get_default d s_type VNone) s_text); [by rewrite IH|].
    destruct (eq_str (get_default d s_type VNone) s_tool_use); [|by rewrite IH].
    destruct (truthy (get_default d s_content (VStr []))); by rewrite IH.
Qed.

(** X13.  The extraction never lets a malformed response raise: when
    "content" has no length (a number, a boolean, [None]) it returns
    "Error parsing response: object of type '...' has no len()", and when
    a content block is not a dict it returns "Error parsing response:
    '...' object has no attribute 'get'", whatever the blocks before and
    after it are; in both cases it logs one error line and the parts
    already collected are lost. *)
Theorem extract_reports_malformed_content env data logs :
  let reported e :=
    _extract_result_from_response env data logs
    = (Ret (s_error_parsing ++ exn_str e),
       logs ++ [(ERROR, s_error_extracting ++ exn_str e)]) in
  (forall v e, dict_get data s_content = Some v -> value_len v = Raise e -> reported e)
  /\ (forall pre b post,
        dict_get data s_content = Some (VList (map VDict pre ++ b :: post)) ->
        (forall d, b <> VDict d) ->
        reported (no_attribute b s_get)).
Proof.
  cbv zeta. unfold _extract_result_from_response, try_except, lift, extract_body,
    contains, get.
  split.
  - intros v e -> Hlen. cbv [default from_option id]. by rewrite Hlen.
  - intros pre b post -> Hb. cbv [default from_option id].
    cbn [value_len value_iter mbind result_bind].
    rewrite (collect_parts_not_a_dict env pre b post [] Hb).
    rewrite length_app. cbn [length].
    by replace (0 <? length (map VDict pre) + S (length post)) with true
      by (symmetry; apply Nat.ltb_lt; lia).
Qed.

Lemma extract_reports_malformed_content_witness :
  (_extract_result_from_response (env_answering ok_response)
     [(lit "content", VInt 7)] []).1
  = Ret (lit "Error parsing response: object of type 'int' has no len()")
  /\ (_extract_result_from_response (env_answering ok_response)
        [(lit "content", VList [VDict [(lit "type", VStr (lit "text"));
                                        (lit "text", VStr (lit "done"))];
                                 VStr (lit "oops")])] []).1
     = Ret (lit "Error parsing response: 'str' object has no attribute 'get'").
Proof.
  split.
  - destruct (extract_reports_malformed_content (env_answering ok_response)
                [(lit "content", VInt 7)] []) as [Hlen _].
    rewrite (Hlen (VInt 7) _ eq_refl eq_refl). reflexivity.
  - destruct (extract_reports_malformed_content (env_answering ok_response)
                [(lit "content", VList [VDict [(lit "type", VStr (lit "text"));
                                                (lit "text", VStr (lit "done"))];
                                         VStr (lit "oops")])] []) as [_ Hblock].
    rewrite (Hblock [[(lit "type", VStr (lit "text")); (lit "text", VStr (lit "done"))]]
               (VStr (lit "oops")) [] eq_refl ltac:(discriminate)).
    reflexivity.
Defined.

End ClaudeCodeFailures.

(** ** The MCP facade beyond the shape of its results *)

Section McpServerTools.
Import Py Eff McpServer McpServerProps Examples.

Lemma render_updates_entries result updates :
  forallb has_sender updates = true ->
  render_updates result updates = Ret (result ++ concat (map entry updates)).
Proof.
  revert result. induction updates as [|u updates IH]; intros result Hall.
  - cbn. by rewrite app_nil_r.
  - cbn [forallb] in Hall. apply andb_true_iff in Hall as [Hu Hall].
    cbn [render_updates map concat]. unfold render_update, entry, has_sender in *.
    destruct (message u) as [msg|]; cbn [mbind result_bind].
    + destruct (from_user msg) as [who|]; [|done]. cbn [mbind result_bind].
      rewrite (IH _ Hall). by rewrite <- !app_assoc.
    + by rewrite (IH _ Hall).
Qed.

Lemma render_updates_no_sender result updates :
  forallb has_sender updates = false ->
  render_updates result updates = Raise (no_attribute VNone s_first_name).
Proof.
  revert result. induction updates as [|u updates IH]; intros result Hsome; [done|].
  cbn [forallb] in Hsome. cbn [render_updates]. unfold render_update, has_sender in *.
  destruct (message u) as [msg|]; cbn [mbind result_bind].
  - destruct (from_user msg) as [who|]; [|done]. cbn [mbind result_bind].
    by apply IH.
  - by apply IH.
Qed.

(** X14.  [send_telegram_message] with a truthy [chat_id] and [text],
    when the bot is available and the Bot API accepts the message,
    returns the success text with the chat id and the message id of the
    message the API returned, logs nothing and leaves the bot set. *)
Theorem send_message_reports_the_ids env d w b m :
  truthy (get d s_chat_id) = true ->
  truthy (get d s_text) = true ->
  the_bot env w = Some b ->
  api_send_message env b (get d s_chat_id) (get d s_text) = Ret m ->
  call_tool env s_send_telegram_message (VDict d) w
  = (Ret [text_content
            (s_sent ++ nl ++ s_chat_id_label ++ str_of_int (McpServer.chat_id m)
               ++ nl ++ s_message_id_label ++ str_of_int (message_id m))],
     {| bot := Some b; logs := logs w |}).
Proof.
  intros Hchat Htext Hbot Hsend. rewrite call_tool_send.
  unfold try_except, send_message. cbv [mbind M_bind lift value_get].
  change (get_default d s_chat_id VNone) with (get d s_chat_id).
  change (get_default d s_text VNone) with (get d s_text).
  rewrite Hchat, Htext. cbn [negb orb].
  unfold except_telegram_error, try_except, get_bot. cbv [mbind M_bind lift mret M_ret].
  unfold the_bot in Hbot. destruct w as [[b'|] logs0]; cbn [bot McpServer.logs] in *.
  - injection Hbot as ->. by rewrite Hsend.
  - destruct (TELEGRAM_BOT_TOKEN env) as [[|c t]|]; [done| |done].
    injection Hbot as <-. by rewrite Hsend.
Qed.

Lemma send_message_reports_the_ids_witness :
  (call_tool mcp_live_env (lit "send_telegram_message") send_args mcp_start).1
  = Ret [text_content (lit "Message sent successfully!" ++ nl ++ lit "Chat ID: 42"
                         ++ nl ++ lit "Message ID: 7")].
Proof.
  exact (f_equal fst
           (send_message_reports_the_ids mcp_live_env
              [(lit "chat_id", VStr (lit "@someone")); (lit "text", VStr (lit "hello"))]
              mcp_start (MkBot (lit "123:abc")) (MkSentMessage 42 7)
              eq_refl eq_refl eq_refl eq_refl)).
Defined.

(** X15.  [get_telegram_updates] with an integer [limit] (10 when the key
    is absent), when the Bot API returns updates, lists [updates[-limit:]]:
    the last [limit] updates for a positive limit (all of them when there
    are fewer), ALL the updates for limit 0, and all but the first
    [-limit] for a negative limit.  The text is the header followed by
    one entry per listed update that has a message, in order; but if any
    listed update has a message without a sender, the whole listing is
    replaced by "Error: 'NoneType' object has no attribute
    'first_name'". *)
Theorem get_updates_lists_the_last_limit env d w b updates limit :
  get_updates_bound env = true ->
  the_bot env w = Some b ->
  get_default d s_limit (VInt 10) = VInt limit ->
  api_get_updates env b (VInt limit) = Ret updates ->
  updates <> [] ->
  exists shown,
    ((0 < limit)%Z ->
       shown `suffix_of` updates
       /\ length shown = Nat.min (Z.to_nat limit) (length updates))
    /\ (limit = 0%Z -> shown = updates)
    /\ ((limit < 0)%Z -> shown = drop (Z.to_nat (- limit)) updates)
    /\ (call_tool env s_get_telegram_updates (VDict d) w).1
       = Ret [text_content
                (if forallb has_sender shown
                 then s_recent ++ nl ++ nl ++ concat (map entry shown)
                 else s_error ++ exn_str (no_attribute VNone s_first_name))].
Proof.
  intros Hbound Hbot Hlimit Hupdates Hne.
  exists (if (- limit <? 0)%Z
          then drop (length updates - Z.to_nat (- - limit)) updates
          else drop (Z.to_nat (- limit)) updates).
  split; [|split; [|split]].
  - intros Hpos. destruct (Z.ltb_spec (- limit) 0); [|lia].
    rewrite Z.opp_involutive. split; [apply suffix_drop|].
    rewrite length_drop. lia.
  - intros ->. done.
  - intros Hneg. destruct (Z.ltb_spec (- limit) 0); [lia|done].
  - rewrite (call_tool_updates _ _ _ Hbound).
    unfold try_except, get_updates. cbv [mbind M_bind lift value_get]. rewrite Hlimit.
    unfold except_telegram_error, try_except. cbv [mbind M_bind lift].
    destruct (get_bot_the_bot env w b Hbot) as [w1 ->]. rewrite Hupdates.
    destruct updates as [|u updates]; [done|]. cbn [neg slice_from].
    set (shown := if (- limit <? 0)%Z then _ else _).
    destruct (forallb has_sender shown) eqn:Hall.
    + by rewrite (render_updates_entries _ _ Hall), <- !app_assoc.
    + by rewrite (render_updates_no_sender _ _ Hall).
Qed.

Lemma get_updates_lists_the_last_limit_witness :
  exists shown,
    shown `suffix_of` three_updates
    /\ length shown = 1
    /\ (call_tool mcp_live_env s_get_telegram_updates (VDict [(lit "limit", VInt 1)])
         mcp_start).1
       = Ret [text_content
                (if forallb has_sender shown
                 then s_recent ++ nl ++ nl ++ concat (map entry shown)
                 else s_error ++ exn_str (no_attribute VNone s_first_name))].
Proof.
  destruct (get_updates_lists_the_last_limit mcp_live_env [(lit "limit", VInt 1)]
              mcp_start (MkBot (lit "123:abc")) three_updates 1
              eq_refl eq_refl eq_refl eq_refl ltac:(discriminate))
    as (shown & Hlast & _ & _ & Hrun).
  destruct (Hlast ltac:(lia)) as [Hsuffix Hlen].
  exists shown. split; [done|]. split; [by rewrite Hlen|done].
Defined.

(** X16.  Without a token (unset or empty) and with no bot created yet,
    a well-formed call of either tool returns "Error: TELEGRAM_BOT_TOKEN
    environment variable is required": the [ValueError] of [get_bot]
    passes the [except TelegramError] clause and is reported by
    [call_tool], which logs it; no bot is created. *)
Theorem tool_call_without_a_token env d w :
  the_bot env w = None ->
  let answer :=
    (Ret [text_content (s_error ++ s_token_required)],
     fun n => {| bot := None;
                 logs := logs w ++ [(ERROR, s_error_calling_tool ++ n ++ s_colon
                                              ++ s_token_required)] |}) in
  (truthy (get d s_chat_id) = true ->
   truthy (get d s_text) = true ->
   call_tool env s_send_telegram_message (VDict d) w
   = (answer.1, answer.2 s_send_telegram_message))
  /\ (get_updates_bound env = true ->
      call_tool env s_get_telegram_updates (VDict d) w
      = (answer.1, answer.2 s_get_telegram_updates)).
Proof.
  intros Hbot answer. subst answer. cbn [fst snd].
  assert (Hget : get_bot env w = (Raise (MkExn ValueError s_token_required), w)
                 /\ bot w = None).
  { unfold the_bot in Hbot. unfold get_bot. destruct (bot w) as [b|]; [done|].
    by destruct (TELEGRAM_BOT_TOKEN env) as [[|c t]|]. }
  destruct Hget as [Hget Hnone]. split.
  - intros Hchat Htext. rewrite call_tool_send.
    unfold try_except, send_message. cbv [mbind M_bind lift value_get].
    change (get_default d s_chat_id VNone) with (get d s_chat_id).
    change (get_default d s_text VNone) with (get d s_text).
    rewrite Hchat, Htext. cbn [negb orb].
    unfold except_telegram_error, try_except. cbv [mbind M_bind lift].
    rewrite Hget. cbn. by rewrite Hnone.
  - intros Hbound. rewrite (call_tool_updates _ _ _ Hbound).
    unfold try_except, get_updates. cbv [mbind M_bind lift value_get].
    unfold except_telegram_error, try_except. cbv [mbind M_bind lift].
    rewrite Hget. cbn. by rewrite Hnone.
Qed.

Lemma tool_call_without_a_token_witness :
  (call_tool mcp_no_token_env (lit "get_telegram_updates") (VDict []) mcp_start).1
  = Ret [text_content
           (lit "Error: TELEGRAM_BOT_TOKEN environment variable is required")].
Proof.
  destruct (tool_call_without_a_token mcp_no_token_env [] mcp_start eq_refl)
    as [_ Hupdates].
  change (lit "get_telegram_updates") with s_get_telegram_updates.
  rewrite (Hupdates eq_refl). reflexivity.
Defined.

(** X17.  Arguments that are not a dict ([None], a list, a string, ...)
    make both tools answer "Error: '...' object has no attribute 'get'"
    with the type of the arguments: the defaults are not applied, the bot
    is neither created nor used, and the error is logged. *)
Theorem tool_call_with_non_dict_arguments env arguments w n :
  (forall d, arguments <> VDict d) ->
  n = s_send_telegram_message
  \/ (n = s_get_telegram_updates /\ get_updates_bound env = true) ->
  call_tool env n arguments w
  = (Ret [text_content (s_error ++ exn_str (no_attribute arguments s_get))],
     {| bot := bot w;
        logs := logs w ++ [(ERROR, s_error_calling_tool ++ n ++ s_colon
                                     ++ exn_str (no_attribute arguments s_get))] |}).
Proof.
  intros Hargs [-> | [-> Hbound]].
  - rewrite call_tool_send. unfold try_except, send_message.
    cbv [mbind M_bind lift value_get].
    destruct arguments; try done. by destruct (Hargs d).
  - rewrite (call_tool_updates _ _ _ Hbound). unfold try_except, get_updates.
    cbv [mbind M_bind lift value_get].
    destruct arguments; try done. by destruct (Hargs d).
Qed.

Lemma tool_call_with_non_dict_arguments_witness :
  (call_tool mcp_live_env (lit "get_telegram_updates") VNone mcp_start).1
  = Ret [text_content (lit "Error: 'NoneType' object has no attribute 'get'")].
Proof.
  change (lit "get_telegram_updates") with s_get_telegram_updates.
  rewrite (tool_call_with_non_dict_arguments mcp_live_env VNone mcp_start
             s_get_telegram_updates ltac:(discriminate)
             (or_intror (conj eq_refl eq_refl))).
  reflexivity.
Defined.

End McpServerTools.

Section McpServerState.
Import Py Eff McpServer McpServerProps Examples.

(** X18.  The global [bot] is created at most once: a tool call, whatever
    its name, its arguments and the Bot API do, leaves a bot that is set
    as it is (so a later change of the token is never seen), and leaves
    an unset bot unset or sets it to the bot of the non-empty token; and
    the log only grows. *)
Theorem call_tool_creates_the_bot_once env n arguments w :
  let w' := (call_tool env n arguments w).2 in
  match bot w with
  | Some b => bot w' = Some b
  | None =>
    bot w' = None
    \/ exists c t, TELEGRAM_BOT_TOKEN env = Some (c :: t) /\ bot w' = Some (MkBot (c :: t))
  end
  /\ logs w `prefix_of` logs w'.
Proof.
  cbv zeta.
  unfold call_tool, dispatch, send_message, get_updates, except_telegram_error,
    try_except, get_bot.
  cbv [mbind M_bind mret M_ret lift log raise].
  destruct w as [b0 logs0]. cbn [bot McpServer.logs].
  repeat case_match; simplify_eq/=;
    (split; [eauto 10 | first [done | by apply prefix_app_r]]).
Qed.

(** X19.  While the name [get_updates] is not bound (the server started
    by the first [asyncio.run(main())] of the script, which runs before
    the [def get_updates] below it), every call of
    [get_telegram_updates] is answered "Error: name 'get_updates' is not
    defined", whatever the arguments; the bot is neither created nor
    used. *)
Theorem get_updates_unbound_is_a_name_error env arguments w :
  get_updates_bound env = false ->
  call_tool env s_get_telegram_updates arguments w
  = (Ret [text_content (s_error ++ s_get_updates_undefined)],
     {| bot := bot w;
        logs := logs w ++ [(ERROR, s_error_calling_tool ++ s_get_telegram_updates
                                     ++ s_colon ++ s_get_updates_undefined)] |}).
Proof.
  intros Hbound. unfold call_tool, dispatch, try_except. rewrite Hbound.
  by rewrite str_eqb_refl.
Qed.

Lemma get_updates_unbound_is_a_name_error_witness :
  (call_tool mcp_script_env (lit "get_telegram_updates") (VDict []) mcp_start).1
  = Ret [text_content (lit "Error: name 'get_updates' is not defined")].
Proof.
  exact (f_equal fst
           (get_updates_unbound_is_a_name_error mcp_script_env (VDict []) mcp_start
              eq_refl)).
Defined.

Lemma dict_get_app_None (d : list (list N * value)) k k' v :
  dict_get d k = None -> dict_get (d ++ [(k', v)]) k = dict_get [(k', v)] k.
Proof.
  induction d as [|[k0 v0] d IH]; [done|]. cbn [dict_get app].
  destruct (str_eqb k0 k); [done|]. exact IH.
Qed.

(** X20.  [list_tools] and [call_tool] agree.  A name that is not the
    name of a listed tool is answered "Error: Unknown tool: <name>" (and
    logged, the bot untouched); a call of a listed tool without one of
    the keys its schema requires is answered "Error: chat_id and text are
    required" before anything else happens; and a default that a schema
    advertises is the one the code uses: giving the key with that value
    changes nothing. *)
Theorem list_tools_agrees_with_call_tool env w :
  (forall n arguments,
     n ∉ map name list_tools ->
     call_tool env n arguments w
     = (Ret [text_content (s_error ++ s_unknown_tool ++ n)],
        {| bot := bot w;
           logs := logs w ++ [(ERROR, s_error_calling_tool ++ n ++ s_colon
                                        ++ s_unknown_tool ++ n)] |}))
  /\ (forall t k d,
        t ∈ list_tools ->
        k ∈ required_keys t ->
        dict_get d k = None ->
        call_tool env (name t) (VDict d) w = (Ret [text_content s_required], w))
  /\ (forall t k v d,
        t ∈ list_tools ->
        advertised_default t k = Some v ->
        dict_get d k = None ->
        call_tool env (name t) (VDict (d ++ [(k, v)])) w
        = call_tool env (name t) (VDict d) w).
Proof.
  split; [|split].
  - intros n arguments Hn. unfold call_tool, dispatch, try_except, str_eqb.
    rewrite !bool_decide_eq_false_2; [done| |].
    + intros ->. apply Hn. apply list_elem_of_further, list_elem_of_here.
    + intros ->. apply Hn. apply list_elem_of_here.
  - intros t k d Ht Hk Hd.
    apply elem_of_cons in Ht as [-> | Ht];
      [|apply elem_of_cons in Ht as [-> | Ht]; [|by apply elem_of_nil in Ht]].
    + cbn [name]. rewrite call_tool_send.
      unfold try_except, send_message. cbv [mbind M_bind lift value_get get_default].
      change (required_keys _) with [s_chat_id; s_text] in Hk.
      apply elem_of_cons in Hk as [-> | Hk];
        [|apply elem_of_cons in Hk as [-> | Hk]; [|by apply elem_of_nil in Hk]].
      * by rewrite Hd.
      * rewrite Hd. cbn [default from_option truthy negb]. by rewrite orb_true_r.
    + change (required_keys _) with (@nil (list N)) in Hk. by apply elem_of_nil in Hk.
  - intros t k v d Ht Hdefault Hd.
    apply elem_of_cons in Ht as [-> | Ht];
      [|apply elem_of_cons in Ht as [-> | Ht]; [|by apply elem_of_nil in Ht]].
    + exfalso. revert Hdefault. unfold advertised_default. cbn [inputSchema].
      change (get _ s_properties) with
        (VDict [(s_chat_id, VDict [(s_type, VStr s_string);
                                   (s_description, VStr s_chat_id_description)]);
                (s_text, VDict [(s_type, VStr s_string);
                                (s_description, VStr s_text_description)])]).
      cbn [dict_get]. destruct (str_eqb s_chat_id k); [by vm_compute|].
      destruct (str_eqb s_text k); [by vm_compute|done].
    + revert Hdefault. unfold advertised_default. cbn [inputSchema name].
      change (get _ s_properties) with
        (VDict [(s_limit, VDict [(s_type, VStr s_number);
                                 (s_description, VStr s_limit_description);
                                 (s_default, VInt 10)])]).
      cbn [dict_get]. unfold str_eqb at 1. case_bool_decide as Hk; [|done].
      subst k. change (dict_get _ s_default) with (Some (VInt 10)). intros [= <-].
      unfold call_tool, dispatch.
      change (str_eqb s_get_telegram_updates s_send_telegram_message) with false.
      rewrite str_eqb_refl. destruct (get_updates_bound env); [|done].
      unfold get_updates. cbv [mbind M_bind lift value_get get_default].
      rewrite (dict_get_app_None _ _ _ _ Hd), Hd. cbn [dict_get].
      by rewrite str_eqb_refl.
Qed.

Lemma list_tools_agrees_with_call_tool_witness :
  (call_tool mcp_live_env (lit "no_such_tool") VNone mcp_start).1
  = Ret [text_content (lit "Error: Unknown tool: no_such_tool")]
  /\ (call_tool mcp_live_env s_send_telegram_message send_args_without_text mcp_start).1
     = Ret [text_content s_required]
  /\ call_tool mcp_live_env s_get_telegram_updates (VDict [(s_limit, VInt 10)]) mcp_start
     = call_tool mcp_live_env s_get_telegram_updates (VDict []) mcp_start.
Proof.
  destruct (list_tools_agrees_with_call_tool mcp_live_env mcp_start)
    as (Hunknown & Hrequired & Hdefault).
  split; [|split].
  - rewrite (Hunknown (lit "no_such_tool") VNone); [reflexivity|].
    cbn. intros Hin. apply elem_of_cons in Hin as [Heq | Hin]; [discriminate|].
    apply elem_of_cons in Hin as [Heq | Hin]; [discriminate|].
    by apply elem_of_nil in Hin.
  - exact (f_equal fst
             (Hrequired _ s_text [(lit "chat_id", VStr (lit "@someone"))]
                (list_elem_of_here _ _)
                (list_elem_of_further _ _ _ (list_elem_of_here _ _)) eq_refl)).
  - exact (Hdefault _ s_limit (VInt 10) []
             (list_elem_of_further _ _ _ (list_elem_of_here _ _)) eq_refl eq_refl).
Defined.

End McpServerState.
